(** * Ownership and retention rules of the multi-memory chat schema

    A shallow embedding of the SQL schema under [sql/]: the three tables
    [memories], [memory_records] and [chat_messages], their column
    constraints and foreign keys, their row level security policies, and the
    two triggers [trg_memories_updated_at] and [trg_prune_chat_messages].

    A table is the list of its rows.  A statement is a function from the
    database to a [result]: an error aborts the statement and nothing of it
    is kept, so a statement that fails hands back no database at all.

    The scripts are read as the declarations they state: a table with its
    columns, constraints and references, a policy with its [using] and
    [with check] expressions, a trigger with its function. *)

From Stdlib Require Import ZArith NArith String.
From stdpp Require Import base decidable option list strings.

(** ** Column types *)

(** A [uuid] is its 128-bit value; PostgreSQL orders uuids as unsigned
    numbers.  A [timestamptz] is a count of microseconds. *)
Abbreviation uuid := N.
Abbreviation timestamptz := Z.
Abbreviation text := string.

(** A [jsonb] value is the document the server has read, not its text: the
    text of a literal is read where the literal stands, before the statement
    it is part of has a row to propose, and text that is not JSON is refused
    there.  A number is a decimal, [mantissa / 10 ^ scale]; the members of an
    object are kept by key, no key twice. *)
Inductive jsonb :=
  | json_null
  | json_bool (b : bool)
  | json_number (mantissa : Z) (scale : N)
  | json_string (s : string)
  | json_array (items : jsonb_items)
  | json_object (members : jsonb_members)
with jsonb_items :=
  | items_nil
  | items_cons (value : jsonb) (rest : jsonb_items)
with jsonb_members :=
  | members_nil
  | members_cons (name : string) (value : jsonb) (rest : jsonb_members).

Fixpoint jsonb_eq_dec (x y : jsonb) : {x = y} + {x ≠ y}
with jsonb_items_eq_dec (x y : jsonb_items) : {x = y} + {x ≠ y}
with jsonb_members_eq_dec (x y : jsonb_members) : {x = y} + {x ≠ y}.
Proof.
  all: decide equality;
    solve [apply bool_dec | apply Z.eq_dec | apply N.eq_dec | apply string_dec].
Defined.

Global Instance jsonb_eq_decision : EqDecision jsonb := jsonb_eq_dec.

(** ['{}'::jsonb] *)
Definition empty_object : jsonb := json_object members_nil.

(** ** Rows *)

(** [public.memories] *)
Record memory := Memory {
  m_id : uuid;
  m_user_id : uuid;
  m_title : text;
  m_description : option text;
  m_created_at : timestamptz;
  m_updated_at : timestamptz
}.

(** [public.memory_records] *)
Record memory_record := MemoryRecord {
  r_id : uuid;
  r_memory_id : uuid;
  r_user_id : uuid;
  r_content : text;
  r_metadata : jsonb;
  r_created_at : timestamptz
}.

(** [public.chat_messages] *)
Record chat_message := ChatMessage {
  c_id : uuid;
  c_user_id : uuid;
  c_memory_id : uuid;
  c_role : text;
  c_content : text;
  c_created_at : timestamptz
}.

Global Instance memory_eq_dec : EqDecision memory.
Proof. solve_decision. Defined.
Global Instance memory_record_eq_dec : EqDecision memory_record.
Proof. solve_decision. Defined.
Global Instance chat_message_eq_dec : EqDecision chat_message.
Proof. solve_decision. Defined.

(** The database: the ids of [auth.users] (the table itself belongs to the
    identity provider; the schema only refers to its [id] column) and the
    three tables of the schema. *)
Record DB := mkDB {
  auth_users : list uuid;
  memories : list memory;
  memory_records : list memory_record;
  chat_messages : list chat_message
}.

Definition empty_db : DB := mkDB [] [] [] [].

Definition with_memories (db : DB) (t : list memory) : DB :=
  mkDB (auth_users db) t (memory_records db) (chat_messages db).
Definition with_memory_records (db : DB) (t : list memory_record) : DB :=
  mkDB (auth_users db) (memories db) t (chat_messages db).
Definition with_chat_messages (db : DB) (t : list chat_message) : DB :=
  mkDB (auth_users db) (memories db) (memory_records db) t.

(** ** Rows as an INSERT proposes them

    A column is [None] when the statement leaves it out: it then takes the
    column default, which is NULL where the table declares none.  For a
    column without default, [None] is also the NULL a statement may give.

    The row an UPDATE proposes has the same shape.  There every column has
    a value, the stored one where the SET clause does not name the column,
    and [None] is the NULL the SET clause gave. *)
Record memory_values := MemoryValues {
  mv_id : option uuid;
  mv_user_id : option uuid;
  mv_title : option text;
  mv_description : option text;
  mv_created_at : option timestamptz;
  mv_updated_at : option timestamptz
}.

Record memory_record_values := MemoryRecordValues {
  rv_id : option uuid;
  rv_memory_id : option uuid;
  rv_user_id : option uuid;
  rv_content : option text;
  rv_metadata : option jsonb;
  rv_created_at : option timestamptz
}.

Record chat_message_values := ChatMessageValues {
  cv_id : option uuid;
  cv_user_id : option uuid;
  cv_memory_id : option uuid;
  cv_role : option text;
  cv_content : option text;
  cv_created_at : option timestamptz
}.

(** ** The server's side of a statement

    [now] is the clock reading [now()] returns, [gen_random_uuid] the value
    the function of that name draws, and [prune_aborted] tells whether the
    server stops the statement when it enters the retention trigger
    (statement timeout, cancellation). *)
Record env := Env {
  now : timestamptz;
  gen_random_uuid : uuid;
  prune_aborted : bool
}.

(** ** Errors and the statement monad *)

Inductive sql_error :=
  | insufficient_privilege   (* 42501, new row violates row-level security policy *)
  | not_null_violation       (* 23502 *)
  | check_violation          (* 23514 *)
  | unique_violation         (* 23505 *)
  | foreign_key_violation    (* 23503 *)
  | ambiguous_column         (* 42702 *)
  | statement_aborted.

Inductive result (A : Type) :=
  | Ok (a : A)
  | Error (e : sql_error).
Arguments Ok {A} a.
Arguments Error {A} e.

Global Instance result_ret : MRet result := λ A a, Ok a.
Global Instance result_bind : MBind result := λ A B f m,
  match m with
  | Ok a => f a
  | Error e => Error e
  end.

Global Instance result_fmap : FMap result := λ A B f m,
  match m with
  | Ok a => Ok (f a)
  | Error e => Error e
  end.

Definition require (b : bool) (e : sql_error) : result unit :=
  if b then Ok () else Error e.

(** A column declared [not null]. *)
Definition not_null {A} (v : option A) : result A :=
  match v with
  | Some a => Ok a
  | None => Error not_null_violation
  end.

(** ** Row level security policies *)

(** [auth.uid() = user_id]; [auth.uid()] is NULL for a session that is not
    signed in, and a comparison with NULL is never true. *)
Definition auth_uid_is (caller : option uuid) (user_id : uuid) : bool :=
  match caller with
  | Some c => bool_decide (c = user_id)
  | None => false
  end.

(** memories: select / insert / update / delete own.  The [with check] of
    an INSERT reads the proposed [user_id], which may be NULL. *)
Definition memories_select_own (caller : option uuid) (m : memory) : bool :=
  auth_uid_is caller (m_user_id m).
Definition memories_insert_own (caller : option uuid)
    (user_id : option uuid) : bool :=
  from_option (auth_uid_is caller) false user_id.
Definition memories_update_own (caller : option uuid) (m : memory) : bool :=
  auth_uid_is caller (m_user_id m).
Definition memories_delete_own (caller : option uuid) (m : memory) : bool :=
  auth_uid_is caller (m_user_id m).

(** The [with check] of "memories update own" on the row an UPDATE
    proposes, whose [user_id] may be NULL. *)
Definition memories_update_own_check (caller : option uuid)
    (user_id : option uuid) : bool :=
  from_option (auth_uid_is caller) false user_id.

(** [exists (select 1 from public.memories m
             where m.id = memory_id and m.user_id = auth.uid())]
    The sub-select reads [memories] through that table's own select
    policy. *)
Definition exists_own_memory (caller : option uuid) (db : DB)
    (memory_id : uuid) : bool :=
  bool_decide (Exists
    (λ m, m_id m = memory_id ∧ auth_uid_is caller (m_user_id m))
    (filter (λ m, memories_select_own caller m) (memories db))).

(** The predicate shared by the four policies of [memory_records] and the
    four of [chat_messages]. *)
Definition by_owner (caller : option uuid) (db : DB)
    (user_id memory_id : uuid) : bool :=
  auth_uid_is caller user_id && exists_own_memory caller db memory_id.

(** The same predicate on a proposed row whose [user_id] or [memory_id] may
    still be NULL: a comparison with NULL is not true. *)
Definition by_owner_values (caller : option uuid) (db : DB)
    (user_id memory_id : option uuid) : bool :=
  match user_id, memory_id with
  | Some u, Some m => by_owner caller db u m
  | _, _ => false
  end.

(** memory_records: select / insert / update / delete by owner *)
Definition records_select_by_owner caller db (r : memory_record) : bool :=
  by_owner caller db (r_user_id r) (r_memory_id r).
Definition records_insert_by_owner caller db
    (user_id memory_id : option uuid) : bool :=
  by_owner_values caller db user_id memory_id.
Definition records_update_by_owner caller db (r : memory_record) : bool :=
  by_owner caller db (r_user_id r) (r_memory_id r).
Definition records_delete_by_owner caller db (r : memory_record) : bool :=
  by_owner caller db (r_user_id r) (r_memory_id r).

(** The [with check] of "records update by owner" on a proposed row. *)
Definition records_update_by_owner_check caller db
    (user_id memory_id : option uuid) : bool :=
  by_owner_values caller db user_id memory_id.

(** chat_messages: select / insert / update / delete by owner *)
Definition chat_select_by_owner caller db (c : chat_message) : bool :=
  by_owner caller db (c_user_id c) (c_memory_id c).
Definition chat_insert_by_owner caller db
    (user_id memory_id : option uuid) : bool :=
  by_owner_values caller db user_id memory_id.
Definition chat_update_by_owner caller db (c : chat_message) : bool :=
  by_owner caller db (c_user_id c) (c_memory_id c).
Definition chat_delete_by_owner caller db (c : chat_message) : bool :=
  by_owner caller db (c_user_id c) (c_memory_id c).

(** The [with check] of "chat update by owner" on a proposed row. *)
Definition chat_update_by_owner_check caller db
    (user_id memory_id : option uuid) : bool :=
  by_owner_values caller db user_id memory_id.

(** ** The rows of an UPDATE

    An UPDATE writes its rows one at a time, in the order it reads the
    table.  [write] makes the new row of a target from the old one (the
    trigger before the update, the [with check] of the policy, the column
    constraints), and the new row goes into the index of the primary key at
    once: its key must not be that of another row as the table is by then,
    with the rows before it ([done]) already written and the rows after it
    ([todo]) still as they were.  The first row that fails is the failure of
    the statement.  The result is the table and the rows written. *)
Section update_rows.
Context {A : Type} (key : A → uuid) (target : A → bool)
  (write : A → result A).

Fixpoint update_rows (done todo : list A) : result (list A * list A) :=
  match todo with
  | [] => Ok (done, [])
  | old :: todo =>
      if target old then
        new ← write old;
        require (bool_decide (key new ∉ key <$> done ++ todo))
          unique_violation ;;
        '(table, rows) ← update_rows (done ++ [new]) todo;
        Ok (table, new :: rows)
      else update_rows (done ++ [old]) todo
  end.

End update_rows.

(** The row [write] makes of [x], and [x] itself where it makes none. *)
Definition written {A} (write : A → result A) (x : A) : A :=
  match write x with
  | Ok y => y
  | Error _ => x
  end.

(** ** auth.users

    Rows of [auth.users] are written by the identity provider, outside the
    policies of this schema. *)

Definition insert_user (u : uuid) (db : DB) : result DB :=
  require (bool_decide (u ∉ auth_users db)) unique_violation ;;
  Ok (mkDB (auth_users db ++ [u]) (memories db) (memory_records db)
        (chat_messages db)).

(** [references auth.users(id) on delete cascade] on the three tables, and
    [references public.memories(id) on delete cascade] for the rows under a
    memory that goes with its user. *)
Definition delete_user (u : uuid) (db : DB) : DB :=
  let gone := fmap m_id (filter (λ m, m_user_id m = u) (memories db)) in
  mkDB (filter (λ x, x ≠ u) (auth_users db))
       (filter (λ m, m_user_id m ≠ u) (memories db))
       (filter (λ r, r_user_id r ≠ u ∧ r_memory_id r ∉ gone)
          (memory_records db))
       (filter (λ c, c_user_id c ≠ u ∧ c_memory_id c ∉ gone)
          (chat_messages db)).

(** ** public.memories *)

(** [select ... from memories where w] *)
Definition select_memories (caller : option uuid) (w : memory → bool)
    (db : DB) : list memory :=
  filter (λ m, w m) (filter (λ m, memories_select_own caller m) (memories db)).

(** [insert into memories values v returning *] *)
Definition insert_memory (e : env) (caller : option uuid)
    (v : memory_values) (db : DB) : result (DB * memory) :=
  let id := default (gen_random_uuid e) (mv_id v) in
  let created_at := default (now e) (mv_created_at v) in
  let updated_at := default (now e) (mv_updated_at v) in
  require (memories_insert_own caller (mv_user_id v))
    insufficient_privilege ;;
  user_id ← not_null (mv_user_id v);
  title ← not_null (mv_title v);
  let row := Memory id user_id title (mv_description v) created_at updated_at in
  require (bool_decide (id ∉ fmap m_id (memories db))) unique_violation ;;
  require (bool_decide (user_id ∈ auth_users db)) foreign_key_violation ;;
  Ok (with_memories db (memories db ++ [row]), row).

(** The trigger function [set_updated_at]: [new.updated_at = now()].  It
    runs before the constraints are looked at, on a row in which a column
    may still be NULL. *)
Definition set_updated_at_values (e : env) (new : memory_values)
    : memory_values :=
  MemoryValues (mv_id new) (mv_user_id new) (mv_title new)
    (mv_description new) (mv_created_at new) (Some (now e)).

(** The same assignment on a row without NULL. *)
Definition set_updated_at (e : env) (new : memory) : memory :=
  Memory (m_id new) (m_user_id new) (m_title new) (m_description new)
    (m_created_at new) (now e).

(** [trg_memories_updated_at]: before update, for each row. *)
Definition trg_memories_updated_at (e : env) (new : memory_values)
    : memory_values :=
  set_updated_at_values e new.

(** The columns of a row, as an UPDATE proposes them when its SET clause
    gives no NULL. *)
Definition memory_columns (m : memory) : memory_values :=
  MemoryValues (Some (m_id m)) (Some (m_user_id m)) (Some (m_title m))
    (m_description m) (Some (m_created_at m)) (Some (m_updated_at m)).

(** One row of an UPDATE of [memories]: the trigger runs on the proposed
    row, then the [with check] of the policy reads it, then the columns
    declared [not null] are looked at. *)
Definition update_memory_row (e : env) (caller : option uuid)
    (v : memory_values) : result memory :=
  let new := trg_memories_updated_at e v in
  require (memories_update_own_check caller (mv_user_id new))
    insufficient_privilege ;;
  id ← not_null (mv_id new);
  user_id ← not_null (mv_user_id new);
  title ← not_null (mv_title new);
  created_at ← not_null (mv_created_at new);
  updated_at ← not_null (mv_updated_at new);
  Ok (Memory id user_id title (mv_description new) created_at updated_at).

(** Some record or chat message refers to the memory [id]. *)
Definition memory_referenced (db : DB) (id : uuid) : bool :=
  bool_decide (id ∈ fmap r_memory_id (memory_records db)
               ∨ id ∈ fmap c_memory_id (chat_messages db)).

(** [update memories set ... where w returning *]: [set] computes the row
    the statement proposes from the old one.  The rows the statement reaches
    are those the select and update policies show.  They are written one at
    a time; the foreign keys are looked at when all rows are written: the
    [user_id] of every new row, and, for the references to [memories(id)]
    (no action on update), that an id which rows refer to is still the id of
    a memory. *)
Definition update_memories_values (e : env) (caller : option uuid)
    (w : memory → bool) (set : memory → memory_values) (db : DB)
    : result (DB * list memory) :=
  let target m :=
    memories_select_own caller m && memories_update_own caller m && w m in
  '(table, rows) ← update_rows m_id target
                     (λ old, update_memory_row e caller (set old))
                     [] (memories db);
  require (forallb (λ new, bool_decide (m_user_id new ∈ auth_users db)) rows)
    foreign_key_violation ;;
  require (forallb (λ m, bool_decide (m_id m ∈ fmap m_id table)
                         || negb (memory_referenced db (m_id m)))
             (filter (λ m, target m) (memories db)))
    foreign_key_violation ;;
  Ok (with_memories db table, rows).

(** The same statement with a SET clause that gives no NULL: [set] computes
    the new row from the old one. *)
Definition update_memories (e : env) (caller : option uuid)
    (w : memory → bool) (set : memory → memory) (db : DB)
    : result (DB * list memory) :=
  update_memories_values e caller w (λ m, memory_columns (set m)) db.

(** [delete from memories where w returning *], with the cascade of
    [memory_records.memory_id] and [chat_messages.memory_id]; a cascade
    is not subject to the policies of the tables it reaches. *)
Definition delete_memories (caller : option uuid) (w : memory → bool)
    (db : DB) : DB * list memory :=
  let target m :=
    memories_select_own caller m && memories_delete_own caller m && w m in
  let targets := filter (λ m, target m) (memories db) in
  let gone := fmap m_id targets in
  (mkDB (auth_users db)
        (filter (λ m, ¬ target m) (memories db))
        (filter (λ r, r_memory_id r ∉ gone) (memory_records db))
        (filter (λ c, c_memory_id c ∉ gone) (chat_messages db)),
   targets).

(** ** public.memory_records *)

Definition select_records (caller : option uuid) (w : memory_record → bool)
    (db : DB) : list memory_record :=
  filter (λ r, w r)
    (filter (λ r, records_select_by_owner caller db r) (memory_records db)).

(** [insert into memory_records values v returning *] *)
Definition insert_record (e : env) (caller : option uuid)
    (v : memory_record_values) (db : DB) : result (DB * memory_record) :=
  let id := default (gen_random_uuid e) (rv_id v) in
  let metadata := default empty_object (rv_metadata v) in
  let created_at := default (now e) (rv_created_at v) in
  require (records_insert_by_owner caller db (rv_user_id v) (rv_memory_id v))
    insufficient_privilege ;;
  memory_id ← not_null (rv_memory_id v);
  user_id ← not_null (rv_user_id v);
  content ← not_null (rv_content v);
  let row := MemoryRecord id memory_id user_id content metadata created_at in
  require (bool_decide (id ∉ fmap r_id (memory_records db)))
    unique_violation ;;
  require (bool_decide (memory_id ∈ fmap m_id (memories db)))
    foreign_key_violation ;;
  require (bool_decide (user_id ∈ auth_users db)) foreign_key_violation ;;
  Ok (with_memory_records db (memory_records db ++ [row]), row).

Definition record_columns (r : memory_record) : memory_record_values :=
  MemoryRecordValues (Some (r_id r)) (Some (r_memory_id r))
    (Some (r_user_id r)) (Some (r_content r)) (Some (r_metadata r))
    (Some (r_created_at r)).

(** One row of an UPDATE of [memory_records]: the [with check] of the
    policy, then the columns declared [not null]. *)
Definition update_record_row (caller : option uuid) (db : DB)
    (new : memory_record_values) : result memory_record :=
  require (records_update_by_owner_check caller db (rv_user_id new)
             (rv_memory_id new)) insufficient_privilege ;;
  id ← not_null (rv_id new);
  memory_id ← not_null (rv_memory_id new);
  user_id ← not_null (rv_user_id new);
  content ← not_null (rv_content new);
  metadata ← not_null (rv_metadata new);
  created_at ← not_null (rv_created_at new);
  Ok (MemoryRecord id memory_id user_id content metadata created_at).

(** [update memory_records set ... where w returning *] *)
Definition update_records_values (caller : option uuid)
    (w : memory_record → bool) (set : memory_record → memory_record_values)
    (db : DB) : result (DB * list memory_record) :=
  let target r :=
    records_select_by_owner caller db r
    && records_update_by_owner caller db r && w r in
  '(table, rows) ← update_rows r_id target
                     (λ old, update_record_row caller db (set old))
                     [] (memory_records db);
  require (forallb (λ new, bool_decide
             (r_memory_id new ∈ fmap m_id (memories db))) rows)
    foreign_key_violation ;;
  require (forallb (λ new, bool_decide (r_user_id new ∈ auth_users db)) rows)
    foreign_key_violation ;;
  Ok (with_memory_records db table, rows).

(** The same statement with a SET clause that gives no NULL. *)
Definition update_records (caller : option uuid) (w : memory_record → bool)
    (set : memory_record → memory_record) (db : DB)
    : result (DB * list memory_record) :=
  update_records_values caller w (λ r, record_columns (set r)) db.

(** [delete from memory_records where w returning *] *)
Definition delete_records (caller : option uuid) (w : memory_record → bool)
    (db : DB) : DB * list memory_record :=
  let target r :=
    records_select_by_owner caller db r
    && records_delete_by_owner caller db r && w r in
  (with_memory_records db (filter (λ r, ¬ target r) (memory_records db)),
   filter (λ r, target r) (memory_records db)).

(** ** public.chat_messages *)

(** [check (role in ('user','assistant','system'))] *)
Definition role_check (role : text) : bool :=
  bool_decide (role ∈ ["user"; "assistant"; "system"]%string).

Definition select_chat_messages (caller : option uuid)
    (w : chat_message → bool) (db : DB) : list chat_message :=
  filter (λ c, w c)
    (filter (λ c, chat_select_by_owner caller db c) (chat_messages db)).

(** The trigger function [prune_chat_messages].  Its one statement is
      delete from chat_messages c using (select id ... offset 10) old
      where c.id = old.id
    In a trigger function [old] is also the record OLD that PL/pgSQL
    declares beside NEW, and names are read without regard to case.  The
    reference [old.id] can thus be read as a column of the sub-select and as
    a field of the record; the function has no [#variable_conflict] setting,
    and PL/pgSQL refuses such a reference when it reaches the statement: the
    function raises ambiguous_column before the DELETE has read or deleted a
    row.  Its body has no exception block: the error leaves the function as
    an error. *)
Definition prune_chat_messages (e : env) (caller : option uuid)
    (NEW : chat_message) (db : DB) : result DB :=
  require (negb (prune_aborted e)) statement_aborted ;;
  Error ambiguous_column.

(** [trg_prune_chat_messages]: after insert, for each row.  The trigger
    runs inside the INSERT statement, whose outcome is the trigger's. *)
Definition trg_prune_chat_messages (e : env) (caller : option uuid)
    (NEW : chat_message) (db : DB) : result DB :=
  prune_chat_messages e caller NEW db.

(** The row an INSERT stores once its defaults are filled in and the
    policy, the constraints and the foreign keys have passed; the trigger
    of the schema has not run yet. *)
Definition insert_chat_row (e : env) (caller : option uuid)
    (v : chat_message_values) (db : DB) : result (DB * chat_message) :=
  let id := default (gen_random_uuid e) (cv_id v) in
  let created_at := default (now e) (cv_created_at v) in
  require (chat_insert_by_owner caller db (cv_user_id v) (cv_memory_id v))
    insufficient_privilege ;;
  user_id ← not_null (cv_user_id v);
  memory_id ← not_null (cv_memory_id v);
  role ← not_null (cv_role v);
  content ← not_null (cv_content v);
  let row := ChatMessage id user_id memory_id role content created_at in
  require (role_check role) check_violation ;;
  require (bool_decide (id ∉ fmap c_id (chat_messages db)))
    unique_violation ;;
  require (bool_decide (user_id ∈ auth_users db)) foreign_key_violation ;;
  require (bool_decide (memory_id ∈ fmap m_id (memories db)))
    foreign_key_violation ;;
  Ok (with_chat_messages db (chat_messages db ++ [row]), row).

(** [insert into chat_messages values v returning *] *)
Definition insert_chat_message (e : env) (caller : option uuid)
    (v : chat_message_values) (db : DB) : result (DB * chat_message) :=
  '(db1, row) ← insert_chat_row e caller v db;
  db2 ← trg_prune_chat_messages e caller row db1;
  Ok (db2, row).

Definition chat_message_columns (c : chat_message) : chat_message_values :=
  ChatMessageValues (Some (c_id c)) (Some (c_user_id c))
    (Some (c_memory_id c)) (Some (c_role c)) (Some (c_content c))
    (Some (c_created_at c)).

(** One row of an UPDATE of [chat_messages]: the [with check] of the
    policy, the columns declared [not null], the [check] of the role.  No
    trigger of the schema fires on an UPDATE of this table. *)
Definition update_chat_message_row (caller : option uuid) (db : DB)
    (new : chat_message_values) : result chat_message :=
  require (chat_update_by_owner_check caller db (cv_user_id new)
             (cv_memory_id new)) insufficient_privilege ;;
  id ← not_null (cv_id new);
  user_id ← not_null (cv_user_id new);
  memory_id ← not_null (cv_memory_id new);
  role ← not_null (cv_role new);
  content ← not_null (cv_content new);
  created_at ← not_null (cv_created_at new);
  require (role_check role) check_violation ;;
  Ok (ChatMessage id user_id memory_id role content created_at).

(** [update chat_messages set ... where w returning *] *)
Definition update_chat_messages_values (caller : option uuid)
    (w : chat_message → bool) (set : chat_message → chat_message_values)
    (db : DB) : result (DB * list chat_message) :=
  let target c :=
    chat_select_by_owner caller db c
    && chat_update_by_owner caller db c && w c in
  '(table, rows) ← update_rows c_id target
                     (λ old, update_chat_message_row caller db (set old))
                     [] (chat_messages db);
  require (forallb (λ new, bool_decide (c_user_id new ∈ auth_users db)) rows)
    foreign_key_violation ;;
  require (forallb (λ new, bool_decide
             (c_memory_id new ∈ fmap m_id (memories db))) rows)
    foreign_key_violation ;;
  Ok (with_chat_messages db table, rows).

(** The same statement with a SET clause that gives no NULL. *)
Definition update_chat_messages (caller : option uuid)
    (w : chat_message → bool) (set : chat_message → chat_message) (db : DB)
    : result (DB * list chat_message) :=
  update_chat_messages_values caller w (λ c, chat_message_columns (set c)) db.

(** [delete from chat_messages where w returning *] *)
Definition delete_chat_messages (caller : option uuid)
    (w : chat_message → bool) (db : DB) : DB * list chat_message :=
  let target c :=
    chat_select_by_owner caller db c
    && chat_delete_by_owner caller db c && w c in
  (with_chat_messages db (filter (λ c, ¬ target c) (chat_messages db)),
   filter (λ c, target c) (chat_messages db)).

(** ** Statements and histories *)

Inductive statement :=
  | InsertUser (u : uuid)
  | DeleteUser (u : uuid)
  | InsertMemory (v : memory_values)
  | UpdateMemories (w : memory → bool) (set : memory → memory_values)
  | DeleteMemories (w : memory → bool)
  | InsertRecord (v : memory_record_values)
  | UpdateRecords (w : memory_record → bool)
      (set : memory_record → memory_record_values)
  | DeleteRecords (w : memory_record → bool)
  | InsertChatMessage (v : chat_message_values)
  | UpdateChatMessages (w : chat_message → bool)
      (set : chat_message → chat_message_values)
  | DeleteChatMessages (w : chat_message → bool).

Definition execute (e : env) (caller : option uuid) (s : statement) (db : DB)
    : result DB :=
  match s with
  | InsertUser u => insert_user u db
  | DeleteUser u => Ok (delete_user u db)
  | InsertMemory v => fst <$> insert_memory e caller v db
  | UpdateMemories w set => fst <$> update_memories_values e caller w set db
  | DeleteMemories w => Ok (fst (delete_memories caller w db))
  | InsertRecord v => fst <$> insert_record e caller v db
  | UpdateRecords w set => fst <$> update_records_values caller w set db
  | DeleteRecords w => Ok (fst (delete_records caller w db))
  | InsertChatMessage v => fst <$> insert_chat_message e caller v db
  | UpdateChatMessages w set =>
      fst <$> update_chat_messages_values caller w set db
  | DeleteChatMessages w => Ok (fst (delete_chat_messages caller w db))
  end.

(** A statement that fails leaves the database as it found it. *)
Definition commit (e : env) (caller : option uuid) (s : statement) (db : DB)
    : DB :=
  match execute e caller s db with
  | Ok db' => db'
  | Error _ => db
  end.

Definition history := list (env * option uuid * statement).

Definition run (h : history) (db : DB) : DB :=
  foldl (λ d '(e, caller, s), commit e caller s d) db h.

Definition reachable (db : DB) : Prop := ∃ h, run h empty_db = db.

(** ** Integrity of a database *)

(** The primary keys. *)
Definition keys_unique (db : DB) : Prop :=
  NoDup (auth_users db)
  ∧ NoDup (fmap m_id (memories db))
  ∧ NoDup (fmap r_id (memory_records db))
  ∧ NoDup (fmap c_id (chat_messages db)).

(** [references auth.users(id)] *)
Definition users_exist (db : DB) : Prop :=
  (∀ m, m ∈ memories db → m_user_id m ∈ auth_users db)
  ∧ (∀ r, r ∈ memory_records db → r_user_id r ∈ auth_users db)
  ∧ (∀ c, c ∈ chat_messages db → c_user_id c ∈ auth_users db).

(** [references public.memories(id)] *)
Definition memories_exist (db : DB) : Prop :=
  (∀ r, r ∈ memory_records db → r_memory_id r ∈ fmap m_id (memories db))
  ∧ (∀ c, c ∈ chat_messages db → c_memory_id c ∈ fmap m_id (memories db)).

(** ** The transcript of one (owner, memory) pair *)

Definition transcript (u m : uuid) (db : DB) : list chat_message :=
  filter (λ c, c_user_id c = u ∧ c_memory_id c = m) (chat_messages db).

(** *** The retention rule in the words of the specification

    After an insert the transcript of the pair holds the 10 most recently
    created of its rows, by [created_at], then [id], descending. *)

(** [c1] was created after [c2]: it comes strictly first in
    [order by created_at desc, id desc]. *)
Definition newer (c1 c2 : chat_message) : Prop :=
  (c_created_at c2 < c_created_at c1)%Z
  ∨ (c_created_at c2 = c_created_at c1 ∧ (c_id c2 < c_id c1)%N).

(** [kept] holds rows of [all], and a row of [all] is left out only when
    [n] rows are kept and each of them is newer than it. *)
Definition evicts_oldest (n : nat) (all kept : list chat_message) : Prop :=
  kept ⊆ all
  ∧ ∀ c, c ∈ all → c ∉ kept →
      length kept = n ∧ ∀ k, k ∈ kept → newer k c.

(** [kept] are the [n] most recently created rows of [all]: no more than
    [n] rows, and only the oldest rows of [all] are left out. *)
Definition most_recent (n : nat) (all kept : list chat_message) : Prop :=
  length kept ≤ n ∧ evicts_oldest n all kept.

(** A run of INSERTs into [chat_messages], each a statement of its own,
    that ends with the first the server refuses; the rows are returned in
    the order of the statements. *)
Fixpoint insert_chat_messages (caller : option uuid)
    (vs : list (env * chat_message_values)) (db : DB)
    : result (DB * list chat_message) :=
  match vs with
  | [] => Ok (db, [])
  | (e, v) :: vs =>
      '(db1, row) ← insert_chat_message e caller v db;
      '(db2, rows) ← insert_chat_messages caller vs db1;
      Ok (db2, row :: rows)
  end.

(** ** A small database to run the statements on *)

Definition alice : uuid := 1%N.
Definition bob : uuid := 2%N.
Definition notes : uuid := 7%N.

(** Alice and Bob are signed up; Alice has one memory. *)
Definition example_db : DB :=
  mkDB [alice; bob] [Memory notes alice "notes" None 0 0] [] [].

(** The [i]-th message Alice sends to her memory, at time [i]; the server
    draws the id [100 + i]. *)
Definition example_message (i : nat) : env * chat_message_values :=
  (Env (Z.of_nat i) (N.of_nat (100 + i)) false,
   ChatMessageValues None (Some alice) (Some notes) (Some "user"%string)
     (Some "hello"%string) None).

Definition fifteen_messages : list (env * chat_message_values) :=
  example_message <$> seq 1 15.

(** The rows of the fifteen messages, as the INSERTs propose them. *)
Definition fifteen_rows : list chat_message :=
  (λ i, ChatMessage (N.of_nat (100 + i)) alice notes "user" "hello"
          (Z.of_nat i)) <$> seq 1 15.

(** The statements of a first session: the identity provider signs Alice
    and Bob up, Alice creates her memory, writes a record under it and sends
    the fifteen messages. *)
Definition fifteen_statements : history :=
  (λ ev, (ev.1, Some alice, InsertChatMessage ev.2)) <$> fifteen_messages.

Definition example_history : history :=
  [(Env 0 0 false, None, InsertUser alice);
   (Env 0 0 false, None, InsertUser bob);
   (Env 0 notes false, Some alice,
    InsertMemory (MemoryValues None (Some alice) (Some "notes"%string)
                    None None None));
   (Env 1 20 false, Some alice,
    InsertRecord (MemoryRecordValues None (Some notes) (Some alice)
                    (Some "mine"%string) None None))]
  ++ fifteen_statements.

(** The database these statements leave. *)
Definition example_db_after : DB := run example_history empty_db.

(** ** The ownership rule in the words of the specification

    The owner of the proposed row is the caller, and the parent memory
    exists and is owned by the caller. *)
Definition owner_and_parent_match (caller : option uuid) (db : DB)
    (user_id memory_id : option uuid) : Prop :=
  ∃ u id,
    user_id = Some u ∧ memory_id = Some id ∧ caller = Some u
    ∧ ∃ m, m ∈ memories db ∧ m_id m = id ∧ m_user_id m = u.

(** [where id = $1] *)
Definition memory_id_is (id : uuid) (m : memory) : bool :=
  bool_decide (m_id m = id).
Definition chat_message_id_is (id : uuid) (c : chat_message) : bool :=
  bool_decide (c_id c = id).

(** [set title = $1] *)
Definition set_title (title : text) (m : memory) : memory :=
  Memory (m_id m) (m_user_id m) title (m_description m) (m_created_at m)
    (m_updated_at m).

(** [set content = $1] *)
Definition set_content (content : text) (c : chat_message) : chat_message :=
  ChatMessage (c_id c) (c_user_id c) (c_memory_id c) (c_role c) content
    (c_created_at c).

(** A memory that Alice inserts at time 10 with timestamps of her own. *)
Definition forged_memory : memory_values :=
  MemoryValues (Some 8%N) (Some alice) (Some "plans"%string) None
    (Some 90%Z) (Some 100%Z).

Definition blank_message : chat_message_values :=
  ChatMessageValues (Some 30%N) (Some alice) (Some notes)
    (Some "user"%string) (Some ""%string) None.

(** Alice has sent one message. *)
Definition chatty_db : DB :=
  with_chat_messages example_db [ChatMessage 101 alice notes "user" "hello" 1].

(** ** What may change a stored chat message

    The statements that can leave a database in which the row [c] is no
    longer found as it was: an UPDATE or a DELETE of chat messages and an
    INSERT (whose trigger is the pruning) by the owner of [c], a DELETE of
    the parent memory by its owner, and the removal of the user who owns [c]
    or its parent memory. *)
Definition may_change_chat_message (caller : option uuid) (s : statement)
    (db : DB) (c : chat_message) : Prop :=
  match s with
  | InsertChatMessage _ | UpdateChatMessages _ _ | DeleteChatMessages _ =>
      by_owner caller db (c_user_id c) (c_memory_id c) = true
  | DeleteMemories w =>
      ∃ m, m ∈ memories db ∧ m_id m = c_memory_id c
           ∧ caller = Some (m_user_id m) ∧ w m = true
  | DeleteUser u =>
      c_user_id c = u
      ∨ ∃ m, m ∈ memories db ∧ m_id m = c_memory_id c ∧ m_user_id m = u
  | _ => False
  end.

(** ** Further notions used by the properties of the policies *)

(** [set user_id = $1] on a memory. *)
Definition set_memory_user (u : uuid) (m : memory) : memory :=
  Memory (m_id m) u (m_title m) (m_description m) (m_created_at m)
    (m_updated_at m).

(** [set memory_id = $1] on a record and on a chat message. *)
Definition set_record_memory (id : uuid) (r : memory_record) : memory_record :=
  MemoryRecord (r_id r) id (r_user_id r) (r_content r) (r_metadata r)
    (r_created_at r).
Definition set_chat_memory (id : uuid) (c : chat_message) : chat_message :=
  ChatMessage (c_id c) (c_user_id c) id (c_role c) (c_content c)
    (c_created_at c).

(** The owner of a record or chat message is the owner of its parent
    memory. *)
Definition ownership_chain (db : DB) : Prop :=
  (∀ r m, r ∈ memory_records db → m ∈ memories db →
     m_id m = r_memory_id r → m_user_id m = r_user_id r)
  ∧ (∀ c m, c ∈ chat_messages db → m ∈ memories db →
     m_id m = c_memory_id c → m_user_id m = c_user_id c).

(** The rows of a database that carry the caller's id as [user_id]. *)
Definition owned_by (caller : option uuid) (db : DB) : DB :=
  mkDB []
    (filter (λ m, auth_uid_is caller (m_user_id m)) (memories db))
    (filter (λ r, auth_uid_is caller (r_user_id r)) (memory_records db))
    (filter (λ c, auth_uid_is caller (c_user_id c)) (chat_messages db)).

(** The statements that can leave a database in which the record [r] is
    no longer found as it was. *)
Definition may_change_record (caller : option uuid) (s : statement)
    (db : DB) (r : memory_record) : Prop :=
  match s with
  | UpdateRecords _ _ | DeleteRecords _ =>
      by_owner caller db (r_user_id r) (r_memory_id r) = true
  | DeleteMemories w =>
      ∃ m, m ∈ memories db ∧ m_id m = r_memory_id r
           ∧ caller = Some (m_user_id m) ∧ w m = true
  | DeleteUser u =>
      r_user_id r = u
      ∨ ∃ m, m ∈ memories db ∧ m_id m = r_memory_id r ∧ m_user_id m = u
  | _ => False
  end.

(** The statements that can leave a database in which the memory [m] is
    no longer found as it was. *)
Definition may_change_memory (caller : option uuid) (s : statement)
    (m : memory) : Prop :=
  match s with
  | UpdateMemories w _ | DeleteMemories w =>
      caller = Some (m_user_id m) ∧ w m = true
  | DeleteUser u => m_user_id m = u
  | _ => False
  end.

(** [where id = $1] on a record. *)
Definition record_id_is (id : uuid) (r : memory_record) : bool :=
  bool_decide (r_id r = id).



(** Alice has a second memory, and seven messages in each. *)
Definition two_memories_db : DB :=
  mkDB [alice; bob]
    [Memory notes alice "notes" None 0 0; Memory 8 alice "plans" None 0 0]
    []
    (((λ i, ChatMessage (N.of_nat (100 + i)) alice notes "user" "hello"
              (Z.of_nat i)) <$> seq 1 7)
     ++ ((λ i, ChatMessage (N.of_nat (200 + i)) alice 8 "user" "hello"
                 (Z.of_nat i)) <$> seq 1 7)).

(** [set id = $1] on a memory. *)
Definition set_memory_id (id : uuid) (m : memory) : memory :=
  Memory id (m_user_id m) (m_title m) (m_description m) (m_created_at m)
    (m_updated_at m).

(** [set id = case when id = a then b else a end] on a memory. *)
Definition swap_memory_ids (a b : uuid) (m : memory) : memory :=
  set_memory_id (if bool_decide (m_id m = a) then b else a) m.

(** [where id in (a, b)] *)
Definition memory_id_in (a b : uuid) (m : memory) : bool :=
  bool_decide (m_id m = a) || bool_decide (m_id m = b).

(** Alice has one record under her memory. *)
Definition record_db : DB :=
  with_memory_records example_db
    [MemoryRecord 20 notes alice "mine" empty_object 1].

(** ** The chat page of the web client

    The handlers of the page that create rows ([createMemory],
    [createRecord], [sendMessage]) and the one that lists the transcript
    ([fetchMessages]).  A JavaScript string is the list of its UTF-16 code
    units; the answer of the server to [apiCall] is given to a handler as a
    function of the request; a handler returns the state it leaves once the
    call it awaits has settled, and the requests it has issued. *)
Module Chat.

Abbreviation js_string := (list N).

(** The code units of an ASCII literal. *)
Definition js (s : string) : js_string :=
  Ascii.N_of_ascii <$> String.list_ascii_of_string s.

(** WhiteSpace and LineTerminator of ECMAScript, the code points that
    [String.prototype.trim] strips. *)
Definition is_white_space (c : N) : bool :=
  bool_decide (c ∈ [0x9; 0xA; 0xB; 0xC; 0xD; 0x20; 0xA0; 0x1680;
                    0x2028; 0x2029; 0x202F; 0x205F; 0x3000; 0xFEFF]%N)
  || ((0x2000 <=? c)%N && (c <=? 0x200A)%N).

Fixpoint trim_start (s : js_string) : js_string :=
  match s with
  | [] => []
  | c :: s' => if is_white_space c then trim_start s' else s
  end.

Definition trim_end (s : js_string) : js_string :=
  reverse (trim_start (reverse s)).

Definition trim (s : js_string) : js_string := trim_end (trim_start s).

(** [!s]: the empty string is the one falsy string. *)
Definition not_string (s : js_string) : bool := bool_decide (s = []).

(** What [apiCall] sends: the path under [/api], the method and the
    members of the JSON body. *)
Record request := Request {
  endpoint : js_string;
  method : js_string;
  body : list (js_string * js_string)
}.

(** [apiCall] returns the parsed answer or throws an [Error]. *)
Inductive outcome (A : Type) :=
  | Resolved (data : A)
  | Rejected (message : js_string).
Arguments Resolved {A} data.
Arguments Rejected {A} message.

Section page.
Context {memory record message : Type} (id : memory → js_string).

(** The state of the component, in the order of its [useState] calls. *)
Record state := State {
  memories : list memory;
  selectedMemory : option memory;
  records : list record;
  messages : list message;
  newMessage : js_string;
  newMemoryTitle : js_string;
  newRecord : js_string;
  showNewMemory : bool;
  showNewRecord : bool;
  error : js_string;
  loading : bool
}.

Definition createMemory (apiCall : request → outcome memory) (st : state)
    : state * list request :=
  if not_string (trim (newMemoryTitle st)) then
    (State (memories st) (selectedMemory st) (records st) (messages st)
       (newMessage st) (newMemoryTitle st) (newRecord st) (showNewMemory st)
       (showNewRecord st) (js "Please enter a memory title") (loading st),
     [])
  else
    let req := Request (js "/memories") (js "POST")
                 [(js "title", newMemoryTitle st)] in
    match apiCall req with
    | Resolved mem =>
        (State (mem :: memories st) (Some mem) (records st) (messages st)
           (newMessage st) [] (newRecord st) false (showNewRecord st) []
           false,
         [req])
    | Rejected msg =>
        (State (memories st) (selectedMemory st) (records st) (messages st)
           (newMessage st) (newMemoryTitle st) (newRecord st)
           (showNewMemory st) (showNewRecord st)
           (js "Failed to create memory: " ++ msg) false,
         [req])
    end.

Definition createRecord (apiCall : request → outcome record) (st : state)
    : state * list request :=
  match selectedMemory st with
  | Some mem =>
      if not_string (trim (newRecord st)) then
        (State (memories st) (selectedMemory st) (records st) (messages st)
           (newMessage st) (newMemoryTitle st) (newRecord st)
           (showNewMemory st) (showNewRecord st)
           (js "Please enter record content") (loading st),
         [])
      else
        let req := Request (js "/memories/" ++ id mem ++ js "/records")
                     (js "POST") [(js "content", newRecord st)] in
        match apiCall req with
        | Resolved rec =>
            (State (memories st) (selectedMemory st) (rec :: records st)
               (messages st) (newMessage st) (newMemoryTitle st) []
               (showNewMemory st) false [] false,
             [req])
        | Rejected msg =>
            (State (memories st) (selectedMemory st) (records st)
               (messages st) (newMessage st) (newMemoryTitle st)
               (newRecord st) (showNewMemory st) (showNewRecord st)
               (js "Failed to create record: " ++ msg) false,
             [req])
        end
  | None =>
      (State (memories st) (selectedMemory st) (records st) (messages st)
         (newMessage st) (newMemoryTitle st) (newRecord st)
         (showNewMemory st) (showNewRecord st)
         (js "Please enter record content") (loading st),
       [])
  end.

(** [fetchMessages], the request and what it does with the answer. *)
Definition fetchMessages_request (memoryId : js_string) : request :=
  Request (js "/chat/memories/" ++ memoryId ++ js "/messages") (js "GET") [].

Definition fetchMessages_resolved (data : list message) (st : state) : state :=
  State (memories st) (selectedMemory st) (records st) (reverse data)
    (newMessage st) (newMemoryTitle st) (newRecord st) (showNewMemory st)
    (showNewRecord st) (error st) (loading st).

(** [sendMessage]; the [fetchMessages] it starts after a sent message is
    not awaited: its request is issued, its answer comes later. *)
Definition sendMessage {A} (apiCall : request → outcome A) (st : state)
    : state * list request :=
  match selectedMemory st with
  | Some mem =>
      if not_string (trim (newMessage st)) then (st, [])
      else
        let req := Request (js "/chat/send") (js "POST")
                     [(js "memory_id", id mem);
                      (js "message", newMessage st)] in
        match apiCall req with
        | Resolved _ =>
            (State (memories st) (selectedMemory st) (records st)
               (messages st) [] (newMemoryTitle st) (newRecord st)
               (showNewMemory st) (showNewRecord st) [] false,
             [req; fetchMessages_request (id mem)])
        | Rejected msg =>
            (State (memories st) (selectedMemory st) (records st)
               (messages st) (newMessage st) (newMemoryTitle st)
               (newRecord st) (showNewMemory st) (showNewRecord st)
               (js "Failed to send message: " ++ msg) false,
             [req])
        end
  | None => (st, [])
  end.

End page.
End Chat.

(** * Properties *)

(** ** The statement monad *)

Lemma bind_Ok {A B} (f : A → result B) (m : result A) (b : B) :
  m ≫= f = Ok b → ∃ a, m = Ok a ∧ f a = Ok b.
Proof. destruct m as [a|err]; simpl; [eauto | discriminate]. Qed.

Lemma fmap_Ok {A B} (f : A → B) (m : result A) (b : B) :
  f <$> m = Ok b → ∃ a, m = Ok a ∧ b = f a.
Proof. destruct m as [a|err]; simpl; [|discriminate]. intros [= <-]. eauto. Qed.

Lemma require_Ok (b : bool) (err : sql_error) (u : unit) :
  require b err = Ok u → b = true.
Proof. by destruct b. Qed.

Lemma not_null_Ok {A} (v : option A) (a : A) : not_null v = Ok a → v = Some a.
Proof. destruct v; simpl; congruence. Qed.

(** Takes an accepted statement apart into the checks it passed. *)
Ltac accepted :=
  repeat match goal with
  | H : _ ≫= _ = Ok _ |- _ =>
      let a := fresh "x" in
      let Ha := fresh "Hx" in
      apply bind_Ok in H as (a & Ha & H)
  | H : require _ _ = Ok _ |- _ => apply require_Ok in H
  | H : not_null _ = Ok _ |- _ => apply not_null_Ok in H
  | H : Ok _ = Ok _ |- _ => injection H as H
  | x : (_ * _)%type |- _ => destruct x
  | H : bool_decide _ = true |- _ => apply bool_decide_eq_true in H
  end.

(** ** The policies *)

Lemma auth_uid_is_true caller u : auth_uid_is caller u = true ↔ caller = Some u.
Proof.
  destruct caller as [c|]; simpl; [|done].
  rewrite bool_decide_eq_true. naive_solver.
Qed.

Lemma auth_uid_is_True caller u : auth_uid_is caller u ↔ caller = Some u.
Proof. by rewrite Is_true_true, auth_uid_is_true. Qed.

Lemma exists_own_memory_true caller db id :
  exists_own_memory caller db id = true
  ↔ ∃ m, m ∈ memories db ∧ m_id m = id ∧ caller = Some (m_user_id m).
Proof.
  unfold exists_own_memory, memories_select_own.
  rewrite bool_decide_eq_true, Exists_exists. split.
  - intros (m & Hin & <- & Hu). apply list_elem_of_filter in Hin as [_ Hin].
    apply auth_uid_is_True in Hu. eauto.
  - intros (m & Hin & <- & Hu). exists m.
    rewrite list_elem_of_filter, !auth_uid_is_True. eauto.
Qed.

Lemma by_owner_true caller db u id :
  by_owner caller db u id = true
  ↔ caller = Some u
    ∧ ∃ m, m ∈ memories db ∧ m_id m = id ∧ m_user_id m = u.
Proof.
  unfold by_owner.
  rewrite andb_true_iff, auth_uid_is_true, exists_own_memory_true.
  split.
  - intros (-> & m & ? & ? & [= ?]). eauto 6.
  - intros (-> & m & ? & ? & <-). eauto 6.
Qed.

Lemma by_owner_values_true caller db ou oid :
  by_owner_values caller db ou oid = true
  ↔ ∃ u id, ou = Some u ∧ oid = Some id ∧ by_owner caller db u id = true.
Proof.
  destruct ou as [u|], oid as [id|]; simpl;
    (split; [intros H; try discriminate; eauto 6
            | intros (? & ? & ? & ? & ?); congruence]).
Qed.

(** ** Filters *)

Section filters.
Context {A : Type}.
Implicit Types (P Q : A → Prop) (l : list A).

Lemma filter_agree P Q `{!∀ x, Decision (P x), !∀ x, Decision (Q x)} l :
  (∀ x, x ∈ l → P x ↔ Q x) → filter P l = filter Q l.
Proof.
  induction l as [|x l IH]; intros Hl; [done|].
  rewrite !filter_cons, IH by (intros; apply Hl; by right).
  assert (P x ↔ Q x) by (apply Hl; by left).
  repeat case_decide; tauto.
Qed.

Lemma filter_all P `{!∀ x, Decision (P x)} l :
  (∀ x, x ∈ l → P x) → filter P l = l.
Proof.
  induction l as [|x l IH]; intros Hl; [done|].
  rewrite filter_cons_True by (apply Hl; by left).
  f_equal. apply IH. intros; apply Hl; by right.
Qed.

Lemma filter_none P `{!∀ x, Decision (P x)} l :
  (∀ x, x ∈ l → ¬ P x) → filter P l = [].
Proof.
  induction l as [|x l IH]; intros Hl; [done|].
  rewrite filter_cons_False by (apply Hl; by left).
  apply IH. intros; apply Hl; by right.
Qed.

End filters.

(** ** Tables whose key is unique *)

Section keyed.
Context {A : Type} (key : A → uuid).
Implicit Types l k : list A.

Lemma key_inj l x y :
  NoDup (key <$> l) → x ∈ l → y ∈ l → key x = key y → x = y.
Proof.
  induction l as [|z l IH]; simpl; [by intros _ ?%elem_of_nil|].
  rewrite NoDup_cons, !elem_of_cons, list_elem_of_fmap.
  intros [Hz Hl] [->|Hx] [->|Hy] Heq; eauto; exfalso; apply Hz; eauto.
Qed.

Lemma key_NoDup_filter (P : A → Prop) `{∀ x, Decision (P x)} l :
  NoDup (key <$> l) → NoDup (key <$> filter P l).
Proof.
  induction l as [|x l IH]; simpl; [done|].
  rewrite NoDup_cons, filter_cons. intros [Hx Hl].
  destruct (decide (P x)); simpl; [|by auto].
  rewrite NoDup_cons. split; [|by auto].
  rewrite list_elem_of_fmap in *. intros (y & Hy & Hin).
  apply list_elem_of_filter in Hin as [_ Hin]. eauto.
Qed.

(** Removing the rows whose key is that of a row of the suffix leaves
    the prefix. *)
End keyed.

(** ** The retention trigger *)

(** The trigger function returns on no input. *)
Lemma prune_chat_messages_raises e caller NEW db :
  prune_chat_messages e caller NEW db
  = Error (if prune_aborted e then statement_aborted else ambiguous_column).
Proof. unfold prune_chat_messages. by destruct (prune_aborted e). Qed.

(** ** Inserting a chat message *)


(** An INSERT fails where its row fails, and in the trigger where the row
    has passed. *)
Lemma insert_chat_message_outcome e caller v db :
  insert_chat_message e caller v db
  = match insert_chat_row e caller v db with
    | Ok _ =>
        Error (if prune_aborted e then statement_aborted else ambiguous_column)
    | Error err => Error err
    end.
Proof.
  unfold insert_chat_message, trg_prune_chat_messages.
  destruct (insert_chat_row e caller v db) as [[db1 row]|err]; [|done].
  simpl. by rewrite prune_chat_messages_raises.
Qed.

Lemma insert_chat_message_not_Ok e caller v db db' row :
  insert_chat_message e caller v db ≠ Ok (db', row).
Proof.
  rewrite insert_chat_message_outcome.
  by destruct (insert_chat_row e caller v db).
Qed.



(** C1, on the code.  The fifteen messages of the scenario, sent by Alice
    to her memory at the times 1 to 15: the row of each passes the policy,
    the constraints and the foreign keys, the retention trigger raises
    ambiguous_column when it runs for it, and the INSERT is refused.  The
    fifteen statements leave the database as it was and the transcript
    empty, where the specification expects the rows 6 to 15: the transcript
    does not hold the 10 most recent of the fifteen rows. *)
Theorem fifteen_inserts_store_nothing :
  (λ ev, snd <$> insert_chat_row ev.1 (Some alice) ev.2 example_db)
    <$> fifteen_messages = Ok <$> fifteen_rows
  ∧ (λ ev, insert_chat_message ev.1 (Some alice) ev.2 example_db)
      <$> fifteen_messages = replicate 15 (Error ambiguous_column)
  ∧ insert_chat_messages (Some alice) fifteen_messages example_db
    = Error ambiguous_column
  ∧ run fifteen_statements example_db = example_db
  ∧ transcript alice notes (run fifteen_statements example_db) = []
  ∧ ¬ most_recent 10 fifteen_rows
        (transcript alice notes (run fifteen_statements example_db)).
Proof.
  assert (Hrun : run fifteen_statements example_db = example_db)
    by (vm_compute; reflexivity).
  split_and!; [vm_compute; reflexivity..|exact Hrun|by rewrite Hrun|].
  rewrite Hrun. intros [_ [_ Hall]].
  destruct (Hall (ChatMessage 101 alice notes "user" "hello" 1)) as [Hlen _].
  - apply (bool_decide_unpack _). by vm_compute.
  - by intros ?%elem_of_nil.
  - discriminate Hlen.
Qed.

(** C8, on the code.  Run for the first message of a transcript, on a set
    of one row, the retention enforcer is no no-op: the trigger function
    raises ambiguous_column, the INSERT it runs in fails with it, and the
    row it ran for is not stored.  It returns on no set of rows, compliant
    or not. *)
Theorem prune_raises_on_compliant_set :
  (∃ db1 row,
     insert_chat_row (Env 1 101 false) (Some alice) (example_message 1).2
       example_db = Ok (db1, row)
     ∧ length (transcript (c_user_id row) (c_memory_id row) db1) = 1
     ∧ prune_chat_messages (Env 1 101 false) (Some alice) row db1
       = Error ambiguous_column
     ∧ insert_chat_message (Env 1 101 false) (Some alice)
         (example_message 1).2 example_db = Error ambiguous_column
     ∧ row ∉ chat_messages
               (commit (Env 1 101 false) (Some alice)
                  (InsertChatMessage (example_message 1).2) example_db))
  ∧ ∀ e caller NEW db db', prune_chat_messages e caller NEW db ≠ Ok db'.
Proof.
  split.
  - eexists _, _. split; [vm_compute; reflexivity|].
    split_and!; [vm_compute; reflexivity..|].
    vm_compute. by intros ?%elem_of_nil.
  - intros e caller NEW db db'. by rewrite prune_chat_messages_raises.
Qed.

(** ** The insert policies *)

Lemma owner_and_parent_match_by_owner caller db ou oid :
  by_owner_values caller db ou oid = true
  ↔ owner_and_parent_match caller db ou oid.
Proof.
  rewrite by_owner_values_true. unfold owner_and_parent_match.
  split; intros (u & id & ? & ? & H); exists u, id;
    rewrite by_owner_true in *; tauto.
Qed.

Lemma insert_record_Ok e caller v db db' row :
  insert_record e caller v db = Ok (db', row) →
  db' = with_memory_records db (memory_records db ++ [row])
  ∧ rv_user_id v = Some (r_user_id row)
  ∧ rv_memory_id v = Some (r_memory_id row)
  ∧ rv_content v = Some (r_content row)
  ∧ by_owner caller db (r_user_id row) (r_memory_id row) = true
  ∧ (r_id row ∉ r_id <$> memory_records db)
  ∧ r_user_id row ∈ auth_users db
  ∧ r_memory_id row ∈ (m_id <$> memories db).
Proof.
  unfold insert_record, records_insert_by_owner. intros H. accepted.
  subst. simpl.
  apply by_owner_values_true in Hx as (u & id & Hu & Hid & Ho).
  rewrite Hu, Hid in *. simplify_eq. done.
Qed.

(** The INSERT of a well-formed record by the owner of the memory is
    accepted. *)
Lemma insert_record_accepted e caller v db u m content :
  rv_user_id v = Some u → rv_memory_id v = Some m →
  rv_content v = Some content →
  by_owner caller db u m = true →
  default (gen_random_uuid e) (rv_id v) ∉ r_id <$> memory_records db →
  u ∈ auth_users db →
  ∃ db', insert_record e caller v db
         = Ok (db', MemoryRecord (default (gen_random_uuid e) (rv_id v)) m u
                      content (default empty_object (rv_metadata v))
                      (default (now e) (rv_created_at v))).
Proof.
  intros Hu Hm Hc Ho Hid Huser.
  assert (m ∈ m_id <$> memories db) as Hmem.
  { apply by_owner_true in Ho as (_ & x & ? & <- & _).
    by apply list_elem_of_fmap_2. }
  unfold insert_record, records_insert_by_owner.
  rewrite Hu, Hm, Hc. simpl. rewrite Ho. simpl.
  rewrite !bool_decide_eq_true_2 by done. simpl. eauto.
Qed.

(** C3. An INSERT of a record or of a chat message is accepted only if the
    owner of the proposed row is the caller and the parent memory exists
    and is owned by the caller; any other pairing is refused by the policy,
    before a constraint is looked at, and the database stays as it was. *)
Theorem insert_requires_owner_and_parent e caller db :
  (∀ v,
     (∀ db' row, insert_record e caller v db = Ok (db', row) →
        owner_and_parent_match caller db (rv_user_id v) (rv_memory_id v))
     ∧ (¬ owner_and_parent_match caller db (rv_user_id v) (rv_memory_id v) →
        insert_record e caller v db = Error insufficient_privilege
        ∧ commit e caller (InsertRecord v) db = db))
  ∧ (∀ v,
     (∀ db' row, insert_chat_message e caller v db = Ok (db', row) →
        owner_and_parent_match caller db (cv_user_id v) (cv_memory_id v))
     ∧ (¬ owner_and_parent_match caller db (cv_user_id v) (cv_memory_id v) →
        insert_chat_message e caller v db = Error insufficient_privilege
        ∧ commit e caller (InsertChatMessage v) db = db)).
Proof.
  split; intros v; split.
  - intros db' row (_ & Hu & Hm & _ & Ho & _)%insert_record_Ok.
    apply owner_and_parent_match_by_owner. by rewrite Hu, Hm.
  - rewrite <-owner_and_parent_match_by_owner. intros Hno%not_true_is_false.
    unfold commit, execute, insert_record, records_insert_by_owner.
    by rewrite Hno.
  - intros db' row Hins. by apply insert_chat_message_not_Ok in Hins.
  - rewrite <-owner_and_parent_match_by_owner. intros Hno%not_true_is_false.
    unfold commit, execute, insert_chat_message, insert_chat_row,
      chat_insert_by_owner.
    by rewrite Hno.
Qed.

Example bob_cannot_insert_under_alice :
  insert_record (Env 1 20 false) (Some bob)
    (MemoryRecordValues None (Some notes) (Some bob) (Some "mine"%string)
       None None) example_db
  = Error insufficient_privilege
  ∧ insert_record (Env 1 20 false) (Some bob)
      (MemoryRecordValues None (Some notes) (Some alice)
         (Some "hers"%string) None None) example_db
    = Error insufficient_privilege
  ∧ insert_record (Env 1 20 false) (Some alice)
      (MemoryRecordValues None (Some notes) (Some alice)
         (Some "mine"%string) None None) example_db
    = Ok (with_memory_records example_db
            [MemoryRecord 20 notes alice "mine" empty_object 1],
          MemoryRecord 20 notes alice "mine" empty_object 1).
Proof. by vm_compute. Qed.

(** ** Required columns *)



Example missing_columns_refused_by_constraint :
  insert_memory (Env 1 9 false) (Some alice)
    (MemoryValues None (Some alice) None None None None) example_db
  = Error not_null_violation
  ∧ insert_record (Env 1 20 false) (Some alice)
      (MemoryRecordValues None (Some notes) (Some alice) None None None)
      example_db
    = Error not_null_violation
  ∧ insert_chat_message (Env 1 30 false) (Some alice)
      (ChatMessageValues None (Some alice) (Some notes) (Some "user"%string)
         None None) example_db
    = Error not_null_violation
  ∧ insert_chat_message (Env 1 30 false) (Some alice)
      (ChatMessageValues None (Some alice) (Some notes) (Some "admin"%string)
         (Some "hello"%string) None) example_db
    = Error check_violation
  ∧ insert_chat_message (Env 1 30 false) (Some alice) blank_message
      example_db
    = Error ambiguous_column.
Proof. by vm_compute. Qed.

(** ** The rows of an UPDATE *)

Section update_rows_facts.
Context {A : Type} (key : A → uuid) (target : A → bool)
  (write : A → result A).

(** An accepted UPDATE has written every target and no other row. *)
Lemma update_rows_Ok acc todo table rows :
  update_rows key target write acc todo = Ok (table, rows) →
  table = acc ++ ((λ x, if target x then written write x else x) <$> todo)
  ∧ rows = written write <$> filter (λ x, target x) todo
  ∧ (∀ x, x ∈ todo → target x = true → write x = Ok (written write x))
  ∧ (NoDup (key <$> acc ++ todo) → NoDup (key <$> table)).
Proof.
  revert acc table rows.
  induction todo as [|old todo IH]; intros acc table rows H; simpl in H.
  - injection H as <- <-. rewrite app_nil_r. split_and!; [done..| |].
    + by intros x ?%elem_of_nil.
    + by rewrite app_nil_r.
  - destruct (target old) eqn:Ht.
    + accepted. subst.
      destruct (IH _ _ _ Hx1) as (-> & -> & Hw & Hk).
      assert (Hnew : written write old = x) by (unfold written; by rewrite Hx).
      split_and!.
      * simpl. rewrite Ht, Hnew. by rewrite <-app_assoc.
      * rewrite filter_cons_True by (by rewrite Ht). simpl. by rewrite Hnew.
      * intros y [->|Hy]%elem_of_cons Hy'; [by rewrite Hnew|by apply Hw].
      * intros Hnd. apply Hk.
        rewrite <-app_assoc. simpl.
        rewrite fmap_app in Hnd |- *. simpl in Hnd |- *.
        apply NoDup_app in Hnd as (Hd & Hdt & Ht').
        apply NoDup_cons in Ht' as [_ Ht'].
        rewrite fmap_app in Hx0. apply not_elem_of_app in Hx0 as [Hx0d Hx0t].
        apply NoDup_app. split_and!; [done| |by apply NoDup_cons].
        intros i Hi [->|Hi']%elem_of_cons; [done|].
        apply (Hdt i Hi). by right.
    + destruct (IH _ _ _ H) as (-> & -> & Hw & Hk). split_and!.
      * simpl. rewrite Ht. rewrite <-app_assoc. reflexivity.
      * rewrite filter_cons_False; [done|]. rewrite Ht. simpl. tauto.
      * intros y [->|Hy]%elem_of_cons Hy'; [congruence|by apply Hw].
      * intros Hnd. apply Hk. by rewrite <-app_assoc.
Qed.

(** An UPDATE that reaches no row writes none. *)
Lemma update_rows_no_target acc todo :
  (∀ x, x ∈ todo → target x = false) →
  update_rows key target write acc todo = Ok (acc ++ todo, []).
Proof.
  revert acc. induction todo as [|old todo IH]; intros acc Hno; simpl.
  - by rewrite app_nil_r.
  - rewrite (Hno old) by (by left). rewrite IH.
    + by rewrite <-app_assoc.
    + intros x Hx. apply Hno. by right.
Qed.

(** An UPDATE whose new rows keep the keys of the old ones is accepted
    when each of its rows is. *)
Lemma update_rows_keys_kept acc todo :
  NoDup (key <$> acc ++ todo) →
  (∀ x, x ∈ todo → target x = true → ∃ y, write x = Ok y ∧ key y = key x) →
  ∃ table rows, update_rows key target write acc todo = Ok (table, rows).
Proof.
  revert acc. induction todo as [|old todo IH]; intros acc Hnd Hw; simpl.
  - eauto.
  - assert (Hrest : ∀ x, x ∈ todo → target x = true →
              ∃ y, write x = Ok y ∧ key y = key x)
      by (intros x Hx; apply Hw; by right).
    destruct (target old) eqn:Ht.
    + destruct (Hw old) as (y & Hy & Hkey); [by left|done|].
      rewrite Hy. simpl.
      assert (Hfresh : key y ∉ key <$> acc ++ todo).
      { rewrite Hkey. rewrite fmap_app in Hnd |- *. simpl in Hnd.
        apply NoDup_app in Hnd as (_ & Hdt & [Ho _]%NoDup_cons).
        intros [Hi|Hi]%elem_of_app; [|done].
        apply (Hdt _ Hi). by left. }
      rewrite bool_decide_eq_true_2 by done. simpl.
      destruct (IH (acc ++ [y])) as (table & rows & ->); [|done|simpl; eauto].
      rewrite <-app_assoc. simpl. rewrite fmap_app in Hnd |- *.
      simpl in Hnd |- *. by rewrite Hkey.
    + apply IH; [|done]. by rewrite <-app_assoc.
Qed.

(** An UPDATE all of whose rows fail in [write] with the same error fails
    with it, if it has a row. *)
Lemma update_rows_all_refused err acc todo :
  (∀ x, x ∈ todo → target x = true → write x = Error err) →
  (∃ x, x ∈ todo ∧ target x = true) →
  update_rows key target write acc todo = Error err.
Proof.
  revert acc. induction todo as [|old todo IH]; intros acc Hw (x & Hx & Ht).
  - by apply elem_of_nil in Hx.
  - simpl. destruct (target old) eqn:Ho.
    + rewrite (Hw old) by (done || by left). done.
    + apply elem_of_cons in Hx as [->|Hx]; [congruence|].
      apply IH; [|by eauto]. intros y Hy. apply Hw. by right.
Qed.

(** An UPDATE whose rows keep their keys, and one of whose rows fails in
    [write] where the others pass or fail in the same way, fails with the
    error of that row. *)
Lemma update_rows_refused err acc todo :
  NoDup (key <$> acc ++ todo) →
  (∀ x, x ∈ todo → target x = true →
     (∃ y, write x = Ok y ∧ key y = key x) ∨ write x = Error err) →
  (∃ x, x ∈ todo ∧ target x = true ∧ write x = Error err) →
  update_rows key target write acc todo = Error err.
Proof.
  revert acc.
  induction todo as [|old todo IH]; intros acc Hnd Hw (x & Hx & Ht & Hf).
  - by apply elem_of_nil in Hx.
  - simpl. destruct (target old) eqn:Ho.
    + destruct (Hw old) as [(y & Hy & Hkey)| ->]; [by left|done| |done].
      rewrite Hy. simpl.
      assert (Hfresh : key y ∉ key <$> acc ++ todo).
      { rewrite Hkey. rewrite fmap_app in Hnd |- *. simpl in Hnd.
        apply NoDup_app in Hnd as (_ & Hdt & [Hn _]%NoDup_cons).
        intros [Hi|Hi]%elem_of_app; [|done].
        apply (Hdt _ Hi). by left. }
      rewrite bool_decide_eq_true_2 by done. simpl.
      apply elem_of_cons in Hx as [->|Hx]; [congruence|].
      rewrite (IH (acc ++ [y])); [done| | |by eauto].
      * rewrite <-app_assoc. simpl. rewrite fmap_app in Hnd |- *.
        simpl in Hnd |- *. by rewrite Hkey.
      * intros z Hz. apply Hw. by right.
    + apply elem_of_cons in Hx as [->|Hx]; [congruence|].
      apply IH; [by rewrite <-app_assoc| |by eauto].
      intros z Hz. apply Hw. by right.
Qed.

End update_rows_facts.

(** ** Updating a memory *)

(** The trigger function on a row without NULL. *)
Lemma set_updated_at_columns e m :
  set_updated_at_values e (memory_columns m)
  = memory_columns (set_updated_at e m).
Proof. reflexivity. Qed.

Lemma update_memory_row_Ok e caller v new :
  update_memory_row e caller v = Ok new →
  mv_id v = Some (m_id new)
  ∧ mv_user_id v = Some (m_user_id new)
  ∧ mv_title v = Some (m_title new)
  ∧ mv_description v = m_description new
  ∧ mv_created_at v = Some (m_created_at new)
  ∧ m_updated_at new = now e
  ∧ caller = Some (m_user_id new).
Proof.
  unfold update_memory_row, trg_memories_updated_at, memories_update_own_check.
  simpl. intros H. accepted. subst. simpl.
  rewrite Hx1 in Hx. simpl in Hx. by apply auth_uid_is_true in Hx.
Qed.

(** The row of a SET clause that gives no NULL. *)
Lemma update_memory_row_columns e caller m :
  update_memory_row e caller (memory_columns m)
  = (require (memories_update_own caller m) insufficient_privilege ;;
     Ok (set_updated_at e m)).
Proof.
  unfold update_memory_row, memories_update_own, memories_update_own_check.
  simpl. by destruct (auth_uid_is caller (m_user_id m)).
Qed.

Lemma update_memories_values_Ok e caller w set db db' rows :
  update_memories_values e caller w set db = Ok (db', rows) →
  let target m :=
    memories_select_own caller m && memories_update_own caller m && w m in
  let new := written (λ old, update_memory_row e caller (set old)) in
  db' = with_memories db ((λ m, if target m then new m else m) <$> memories db)
  ∧ rows = new <$> filter (λ m, target m) (memories db)
  ∧ (NoDup (m_id <$> memories db) → NoDup (m_id <$> memories db'))
  ∧ (∀ m, m ∈ memories db → target m →
       update_memory_row e caller (set m) = Ok (new m)
       ∧ memories_update_own caller (new m)
       ∧ m_user_id (new m) ∈ auth_users db
       ∧ (m_id m ∈ (m_id <$> memories db')
          ∨ memory_referenced db (m_id m) = false)).
Proof.
  unfold update_memories_values. intros H. accepted.
  apply update_rows_Ok in Hx as (-> & -> & Hw & Hk). simpl in *.
  subst. simpl. split_and!; [done..|].
  intros m Hm Ht.
  assert (Hin : m ∈ filter (λ m, memories_select_own caller m
                  && memories_update_own caller m && w m) (memories db))
    by (by apply list_elem_of_filter).
  pose proof (Hw m Hm (Is_true_true_1 _ Ht)) as Hrow.
  apply Is_true_true, forallb_True in Hx0, Hx1.
  rewrite Forall_forall in Hx0, Hx1.
  specialize (Hx1 _ Hin). simpl in Hx1.
  assert (Hnew : written (λ old, update_memory_row e caller (set old)) m
                 ∈ written (λ old, update_memory_row e caller (set old))
                   <$> filter (λ m, memories_select_own caller m
                         && memories_update_own caller m && w m) (memories db))
    by (by apply list_elem_of_fmap_2).
  specialize (Hx0 _ Hnew). simpl in Hx0.
  split_and!.
  - done.
  - apply update_memory_row_Ok in Hrow as (_ & _ & _ & _ & _ & _ & Hc).
    unfold memories_update_own. by apply auth_uid_is_True.
  - by apply bool_decide_unpack in Hx0.
  - apply orb_True in Hx1 as [?%bool_decide_unpack|?%negb_True]; [by left|].
    right. by apply Is_true_false.
Qed.

(** The table an UPDATE leaves, where the new rows are known. *)
Lemma fmap_written {A} (t : A → bool) (write : A → result A) (f : A → A)
    (l : list A) :
  (∀ x, x ∈ l → t x = true → write x = Ok (f x)) →
  (λ x, if t x then written write x else x) <$> l
  = (λ x, if t x then f x else x) <$> l
  ∧ written write <$> filter (λ x, t x) l = f <$> filter (λ x, t x) l.
Proof.
  intros Hw. split.
  - apply list_fmap_ext. intros i x Hx%list_elem_of_lookup_2.
    destruct (t x) eqn:Ht; [|done]. unfold written. by rewrite (Hw x Hx Ht).
  - apply list_fmap_ext. intros i x Hx%list_elem_of_lookup_2.
    apply list_elem_of_filter in Hx as [Ht Hx].
    unfold written. by rewrite (Hw x Hx (Is_true_true_1 _ Ht)).
Qed.


Lemma update_memories_Ok e caller w set db db' rows :
  update_memories e caller w set db = Ok (db', rows) →
  let target m :=
    memories_select_own caller m && memories_update_own caller m && w m in
  let new m := set_updated_at e (set m) in
  db' = with_memories db ((λ m, if target m then new m else m) <$> memories db)
  ∧ rows = new <$> filter (λ m, target m) (memories db)
  ∧ (NoDup (m_id <$> memories db) → NoDup (m_id <$> memories db'))
  ∧ (∀ m, m ∈ memories db → target m →
       memories_update_own caller (new m)
       ∧ m_user_id (new m) ∈ auth_users db
       ∧ (m_id m ∈ (m_id <$> memories db')
          ∨ memory_referenced db (m_id m) = false)).
Proof.
  unfold update_memories. intros H.
  apply update_memories_values_Ok in H as (Hdb & Hrows & Hk & Hnew).
  assert (Hw : ∀ m, m ∈ memories db →
            memories_select_own caller m && memories_update_own caller m
            && w m = true →
            update_memory_row e caller (memory_columns (set m))
            = Ok (set_updated_at e (set m))).
  { intros m Hm Ht. destruct (Hnew m Hm) as (Hrow & Hown & _);
      [by rewrite Ht|].
    rewrite update_memory_row_columns in Hrow |- *.
    by destruct (memories_update_own caller (set m)). }
  destruct (fmap_written _ _ _ _ Hw) as [Htable Hwritten].
  rewrite Htable in Hdb. rewrite Hwritten in Hrows.
  split_and!; [done..|].
  intros m Hm Ht. destruct (Hnew m Hm Ht) as (Hrow & Hown & Hu & Href).
  rewrite (Hw m Hm (Is_true_true_1 _ Ht)) in Hrow. injection Hrow as Hrow.
  rewrite <-Hrow in Hown, Hu. done.
Qed.

(** C5, as the specification states it, fails: Alice inserts a memory with
    timestamps of her own at time 10 and renames it at time 50; the update
    moves [updated_at] back from 100 to 50, which is before [created_at]. *)
Lemma update_moves_updated_at_back :
  ∃ db1 old db2 new,
    insert_memory (Env 10 0 false) (Some alice) forged_memory example_db
    = Ok (db1, old)
    ∧ update_memories (Env 50 0 false) (Some alice) (memory_id_is 8)
        (set_title "plans for May") db1
      = Ok (db2, [new])
    ∧ m_updated_at new = now (Env 50 0 false)
    ∧ (m_updated_at new < m_updated_at old)%Z
    ∧ (m_updated_at new < m_created_at new)%Z.
Proof.
  eexists _, _, _, _. split; [vm_compute; reflexivity|].
  split; [vm_compute; reflexivity|]. by vm_compute.
Qed.

(** C5, amended. Every row an UPDATE of [memories] writes carries the
    server time of the update as [updated_at], whatever the statement set
    it to; the new [updated_at] is not before the previous one when that was
    not ahead of the server time, and not before [created_at] when that is
    not ahead of the server time. *)
Theorem update_stamps_server_time e caller w set db db' rows :
  update_memories e caller w set db = Ok (db', rows) →
  (∀ new, new ∈ rows → new ∈ memories db' ∧ m_updated_at new = now e)
  ∧ (∀ old, old ∈ memories db → caller = Some (m_user_id old) → w old = true →
       let new := set_updated_at e (set old) in
       new ∈ rows
       ∧ ((m_updated_at old ≤ now e)%Z →
          (m_updated_at old ≤ m_updated_at new)%Z)
       ∧ ((m_created_at new ≤ now e)%Z →
          (m_created_at new ≤ m_updated_at new)%Z)).
Proof.
  intros (-> & -> & _)%update_memories_Ok. split.
  - intros new (old & -> & Hold)%list_elem_of_fmap. split; [|done].
    apply list_elem_of_filter in Hold as [Ht Hold]. simpl.
    apply list_elem_of_fmap. exists old. split; [|done].
    by rewrite (Is_true_true_1 _ Ht).
  - intros old Hold Hc Hw. simpl. split_and!; [|done..].
    apply list_elem_of_fmap. exists old. split; [done|].
    apply list_elem_of_filter. split; [|done].
    unfold memories_select_own, memories_update_own.
    apply auth_uid_is_true in Hc. by rewrite Hc, Hw.
Qed.

Lemma update_stamps_server_time_example :
  ∃ db' rows,
    update_memories (Env 50 0 false) (Some alice) (memory_id_is notes)
      (set_title "notes, tidied") example_db = Ok (db', rows)
    ∧ (∀ new, new ∈ rows → new ∈ memories db' ∧ m_updated_at new = 50%Z)
    ∧ set_title "notes, tidied" (Memory notes alice "notes" None 0 50) ∈ rows.
Proof.
  eexists _, _. split; [vm_compute; reflexivity|].
  edestruct (λ db' rows, update_stamps_server_time (Env 50 0 false)
               (Some alice) (memory_id_is notes) (set_title "notes, tidied")
               example_db db' rows) as [Hnew Hold].
  - vm_compute; reflexivity.
  - split; [exact Hnew|].
    apply (Hold (Memory notes alice "notes" None 0 0));
      [apply (bool_decide_unpack _); by vm_compute|reflexivity..].
Defined.

(** ** A failing prune *)





(** ** Another user's memory *)

Lemma with_memories_same db : with_memories db (memories db) = db.
Proof. by destruct db. Qed.

Lemma fmap_unless {A} (t : A → bool) (f : A → A) (l : list A) :
  (∀ x, x ∈ l → t x = false) → (λ x, if t x then f x else x) <$> l = l.
Proof.
  intros Hl. rewrite <-(list_fmap_id l) at 2. apply list_fmap_ext.
  intros i x Hx%list_elem_of_lookup_2. by rewrite Hl.
Qed.

(** An UPDATE that reaches no row. *)
Lemma update_memories_values_none e caller w set db :
  (∀ m, m ∈ memories db → memories_select_own caller m = true → w m = false) →
  update_memories_values e caller w set db = Ok (db, []).
Proof.
  intros Hno. unfold update_memories_values.
  assert (Ht : ∀ m, m ∈ memories db →
            memories_select_own caller m && memories_update_own caller m
            && w m = false).
  { intros m Hm. destruct (memories_select_own caller m) eqn:Hs; [|done].
    by rewrite (Hno m Hm Hs), andb_false_r. }
  rewrite update_rows_no_target by done. simpl.
  assert (filter (λ m, memories_select_own caller m
            && memories_update_own caller m && w m) (memories db) = [])
    as -> by (apply filter_none; intros m Hm; rewrite (Ht m Hm); tauto).
  simpl. by rewrite with_memories_same.
Qed.

Lemma update_memories_none e caller w set db :
  NoDup (m_id <$> memories db) →
  (∀ m, m ∈ memories db → memories_select_own caller m = true → w m = false) →
  update_memories e caller w set db = Ok (db, []).
Proof. intros _ Hno. by apply update_memories_values_none. Qed.

(** A DELETE that reaches no row. *)
Lemma delete_memories_none caller w db :
  (∀ m, m ∈ memories db → memories_select_own caller m = true → w m = false) →
  delete_memories caller w db = (db, []).
Proof.
  intros Hno. unfold delete_memories.
  assert (Ht : ∀ m, m ∈ memories db →
            ¬ (memories_select_own caller m && memories_delete_own caller m
               && w m)).
  { intros m Hm. destruct (memories_select_own caller m) eqn:Hs; [|tauto].
    rewrite (Hno m Hm Hs), andb_false_r. tauto. }
  assert (filter (λ m, memories_select_own caller m
            && memories_delete_own caller m && w m) (memories db) = [])
    as -> by (by apply filter_none).
  rewrite (filter_all _ (memories db)) by done.
  simpl. rewrite !filter_all; [by destruct db|..];
    by intros ? _ ?%elem_of_nil.
Qed.

Lemma select_memories_none caller w db :
  (∀ m, m ∈ memories db → memories_select_own caller m = true → w m = false) →
  select_memories caller w db = [].
Proof.
  intros Hno. unfold select_memories. apply filter_none.
  intros m [Hs Hm]%list_elem_of_filter. apply Is_true_true in Hs.
  rewrite (Hno m Hm Hs). tauto.
Qed.

(** C2. A memory [M] owned by a user other than the caller is not found by
    the caller's SELECT, UPDATE or DELETE of it: each returns no row and
    leaves the database as it is, which is what it does on a database that
    has no memory of that id. *)
Theorem foreign_memory_not_found e caller M db :
  NoDup (m_id <$> memories db) →
  M ∈ memories db →
  caller ≠ Some (m_user_id M) →
  (select_memories caller (memory_id_is (m_id M)) db = []
   ∧ (∀ set,
        update_memories e caller (memory_id_is (m_id M)) set db = Ok (db, []))
   ∧ delete_memories caller (memory_id_is (m_id M)) db = (db, []))
  ∧ ∀ db0,
      NoDup (m_id <$> memories db0) →
      m_id M ∉ m_id <$> memories db0 →
      select_memories caller (memory_id_is (m_id M)) db0 = []
      ∧ (∀ set,
           update_memories e caller (memory_id_is (m_id M)) set db0
           = Ok (db0, []))
      ∧ delete_memories caller (memory_id_is (m_id M)) db0 = (db0, []).
Proof.
  intros Hk HM Hc.
  assert (Hno : ∀ m, m ∈ memories db →
            memories_select_own caller m = true →
            memory_id_is (m_id M) m = false).
  { intros m Hm Hs. apply bool_decide_eq_false. intros Hid.
    assert (m = M) as -> by eauto using key_inj.
    by apply auth_uid_is_true in Hs. }
  split.
  - split_and!; [by apply select_memories_none| |by apply delete_memories_none].
    intros set. by apply update_memories_none.
  - intros db0 Hk0 Habsent.
    assert (Hno0 : ∀ m, m ∈ memories db0 →
              memories_select_own caller m = true →
              memory_id_is (m_id M) m = false).
    { intros m Hm _. apply bool_decide_eq_false. intros Hid.
      apply Habsent. rewrite <-Hid. by apply list_elem_of_fmap_2. }
    split_and!;
      [by apply select_memories_none| |by apply delete_memories_none].
    intros set. by apply update_memories_none.
Qed.

Lemma foreign_memory_not_found_example :
  select_memories (Some bob) (memory_id_is notes) example_db = []
  ∧ update_memories (Env 5 0 false) (Some bob) (memory_id_is notes)
      (set_title "mine now") example_db = Ok (example_db, [])
  ∧ delete_memories (Some bob) (memory_id_is notes) example_db
    = (example_db, [])
  ∧ select_memories (Some bob) (memory_id_is notes) empty_db = []
  ∧ update_memories (Env 5 0 false) (Some bob) (memory_id_is notes)
      (set_title "mine now") empty_db = Ok (empty_db, [])
  ∧ delete_memories (Some bob) (memory_id_is notes) empty_db = (empty_db, []).
Proof.
  destruct (foreign_memory_not_found (Env 5 0 false) (Some bob)
              (Memory notes alice "notes" None 0 0) example_db)
    as [(Hs & Hu & Hd) Habsent].
  - apply (bool_decide_unpack _). by vm_compute.
  - apply (bool_decide_unpack _). by vm_compute.
  - discriminate.
  - destruct (Habsent empty_db) as (Hs0 & Hu0 & Hd0).
    + apply NoDup_nil_2.
    + by intros ?%elem_of_nil.
    + split_and!; [exact Hs|apply Hu|exact Hd|exact Hs0|apply Hu0|exact Hd0].
Defined.

(** The records and chat messages under another user's memory are not
    listed either. *)
Lemma foreign_rows_not_listed caller M db :
  NoDup (m_id <$> memories db) →
  M ∈ memories db →
  caller ≠ Some (m_user_id M) →
  (∀ w r, r ∈ select_records caller w db → r_memory_id r ≠ m_id M)
  ∧ (∀ w c, c ∈ select_chat_messages caller w db → c_memory_id c ≠ m_id M).
Proof.
  intros Hk HM Hc.
  assert (Hno : ∀ u, by_owner caller db u (m_id M) = false).
  { intros u. apply not_true_is_false.
    intros [_ Hex]%andb_true_iff.
    apply exists_own_memory_true in Hex as (m & Hm & Hid & Hown).
    assert (m = M) as -> by eauto using key_inj. done. }
  split; intros w x [_ [Hs _]%list_elem_of_filter]%list_elem_of_filter Hid;
    unfold records_select_by_owner, chat_select_by_owner in Hs;
    by rewrite Hid, Hno in Hs.
Qed.

(** ** What the other statements keep *)

Lemma insert_memory_Ok e caller v db db' row :
  insert_memory e caller v db = Ok (db', row) →
  db' = with_memories db (memories db ++ [row])
  ∧ mv_user_id v = Some (m_user_id row)
  ∧ mv_title v = Some (m_title row)
  ∧ caller = Some (m_user_id row)
  ∧ (m_id row ∉ m_id <$> memories db)
  ∧ m_user_id row ∈ auth_users db.
Proof.
  unfold insert_memory, memories_insert_own. intros H. accepted.
  subst. simpl.
  rewrite Hx0 in Hx. simpl in Hx. by apply auth_uid_is_true in Hx.
Qed.

Lemma record_columns_inj r1 r2 :
  record_columns r1 = record_columns r2 → r1 = r2.
Proof. destruct r1, r2. unfold record_columns. simpl. congruence. Qed.

Lemma chat_message_columns_inj c1 c2 :
  chat_message_columns c1 = chat_message_columns c2 → c1 = c2.
Proof. destruct c1, c2. unfold chat_message_columns. simpl. congruence. Qed.

Lemma update_record_row_Ok caller db v new :
  update_record_row caller db v = Ok new →
  v = record_columns new
  ∧ records_update_by_owner caller db new.
Proof.
  unfold update_record_row, records_update_by_owner_check,
    records_update_by_owner.
  intros H. accepted. subst. destruct v; simpl in *. subst. split; [done|].
  simpl. by apply Is_true_true.
Qed.

Lemma update_record_row_columns caller db r :
  update_record_row caller db (record_columns r)
  = (require (records_update_by_owner caller db r) insufficient_privilege ;;
     Ok r).
Proof.
  unfold update_record_row, records_update_by_owner,
    records_update_by_owner_check. simpl.
  destruct (by_owner caller db (r_user_id r) (r_memory_id r)); [|done].
  by destruct r.
Qed.

Lemma update_records_values_Ok caller w set db db' rows :
  update_records_values caller w set db = Ok (db', rows) →
  let target r :=
    records_select_by_owner caller db r
    && records_update_by_owner caller db r && w r in
  let new := written (λ old, update_record_row caller db (set old)) in
  db' = with_memory_records db
          ((λ r, if target r then new r else r) <$> memory_records db)
  ∧ rows = new <$> filter (λ r, target r) (memory_records db)
  ∧ (NoDup (r_id <$> memory_records db) → NoDup (r_id <$> memory_records db'))
  ∧ (∀ r, r ∈ memory_records db → target r →
       set r = record_columns (new r)
       ∧ records_update_by_owner caller db (new r)
       ∧ r_memory_id (new r) ∈ (m_id <$> memories db)
       ∧ r_user_id (new r) ∈ auth_users db).
Proof.
  unfold update_records_values. intros H. accepted.
  apply update_rows_Ok in Hx as (-> & -> & Hw & Hk). simpl in *.
  subst. simpl. split_and!; [done..|].
  intros r Hr Ht.
  pose proof (Hw r Hr (Is_true_true_1 _ Ht)) as Hrow.
  apply update_record_row_Ok in Hrow as [Hset Hown].
  assert (Hnew : written (λ old, update_record_row caller db (set old)) r
                 ∈ written (λ old, update_record_row caller db (set old))
                   <$> filter (λ r, records_select_by_owner caller db r
                         && records_update_by_owner caller db r && w r)
                         (memory_records db)).
  { apply list_elem_of_fmap_2. by apply list_elem_of_filter. }
  apply Is_true_true, forallb_True in Hx0, Hx1.
  rewrite Forall_forall in Hx0, Hx1.
  specialize (Hx0 _ Hnew). specialize (Hx1 _ Hnew). simpl in Hx0, Hx1.
  split_and!; [done..|by apply bool_decide_unpack in Hx0|].
  by apply bool_decide_unpack in Hx1.
Qed.

Lemma update_records_Ok caller w set db db' rows :
  update_records caller w set db = Ok (db', rows) →
  let target r :=
    records_select_by_owner caller db r
    && records_update_by_owner caller db r && w r in
  db' = with_memory_records db
          ((λ r, if target r then set r else r) <$> memory_records db)
  ∧ rows = set <$> filter (λ r, target r) (memory_records db)
  ∧ (NoDup (r_id <$> memory_records db) → NoDup (r_id <$> memory_records db'))
  ∧ (∀ r, r ∈ memory_records db → target r →
       records_update_by_owner caller db (set r)
       ∧ r_memory_id (set r) ∈ (m_id <$> memories db)
       ∧ r_user_id (set r) ∈ auth_users db).
Proof.
  unfold update_records. intros H.
  apply update_records_values_Ok in H as (Hdb & Hrows & Hk & Hnew).
  assert (Hw : ∀ r, r ∈ memory_records db →
            records_select_by_owner caller db r
            && records_update_by_owner caller db r && w r = true →
            update_record_row caller db (record_columns (set r))
            = Ok (set r)).
  { intros r Hr Ht. destruct (Hnew r Hr) as (Hset & Hown & _);
      [by rewrite Ht|].
    rewrite update_record_row_columns.
    apply record_columns_inj in Hset. rewrite <-Hset in Hown.
    by destruct (records_update_by_owner caller db (set r)). }
  destruct (fmap_written _ _ _ _ Hw) as [Htable Hwritten].
  rewrite Htable in Hdb. rewrite Hwritten in Hrows.
  split_and!; [done..|].
  intros r Hr Ht. destruct (Hnew r Hr Ht) as (_ & Hown & Hm & Hu).
  unfold written in Hown, Hm, Hu.
  rewrite (Hw r Hr (Is_true_true_1 _ Ht)) in Hown, Hm, Hu. done.
Qed.

Lemma update_chat_message_row_Ok caller db v new :
  update_chat_message_row caller db v = Ok new →
  v = chat_message_columns new
  ∧ chat_update_by_owner caller db new
  ∧ role_check (c_role new).
Proof.
  unfold update_chat_message_row, chat_update_by_owner_check,
    chat_update_by_owner.
  intros H. accepted. subst. destruct v; simpl in *. subst.
  split_and!; [done| |by apply Is_true_true].
  simpl. by apply Is_true_true.
Qed.

Lemma update_chat_message_row_columns caller db c :
  update_chat_message_row caller db (chat_message_columns c)
  = (require (chat_update_by_owner caller db c) insufficient_privilege ;;
     require (role_check (c_role c)) check_violation ;;
     Ok c).
Proof.
  unfold update_chat_message_row, chat_update_by_owner,
    chat_update_by_owner_check. simpl.
  destruct (by_owner caller db (c_user_id c) (c_memory_id c)); [|done].
  simpl. destruct (role_check (c_role c)); [|done]. by destruct c.
Qed.

Lemma update_chat_messages_values_Ok caller w set db db' rows :
  update_chat_messages_values caller w set db = Ok (db', rows) →
  let target c :=
    chat_select_by_owner caller db c
    && chat_update_by_owner caller db c && w c in
  let new := written (λ old, update_chat_message_row caller db (set old)) in
  db' = with_chat_messages db
          ((λ c, if target c then new c else c) <$> chat_messages db)
  ∧ rows = new <$> filter (λ c, target c) (chat_messages db)
  ∧ (NoDup (c_id <$> chat_messages db) → NoDup (c_id <$> chat_messages db'))
  ∧ (∀ c, c ∈ chat_messages db → target c →
       set c = chat_message_columns (new c)
       ∧ chat_update_by_owner caller db (new c)
       ∧ role_check (c_role (new c))
       ∧ c_user_id (new c) ∈ auth_users db
       ∧ c_memory_id (new c) ∈ (m_id <$> memories db)).
Proof.
  unfold update_chat_messages_values. intros H. accepted.
  apply update_rows_Ok in Hx as (-> & -> & Hw & Hk). simpl in *.
  subst. simpl. split_and!; [done..|].
  intros c Hc Ht.
  pose proof (Hw c Hc (Is_true_true_1 _ Ht)) as Hrow.
  apply update_chat_message_row_Ok in Hrow as (Hset & Hown & Hrole).
  assert (Hnew : written (λ old, update_chat_message_row caller db (set old)) c
                 ∈ written (λ old, update_chat_message_row caller db (set old))
                   <$> filter (λ c, chat_select_by_owner caller db c
                         && chat_update_by_owner caller db c && w c)
                         (chat_messages db)).
  { apply list_elem_of_fmap_2. by apply list_elem_of_filter. }
  apply Is_true_true, forallb_True in Hx0, Hx1.
  rewrite Forall_forall in Hx0, Hx1.
  specialize (Hx0 _ Hnew). specialize (Hx1 _ Hnew). simpl in Hx0, Hx1.
  split_and!; [done..|by apply bool_decide_unpack in Hx0|].
  by apply bool_decide_unpack in Hx1.
Qed.

Lemma update_chat_messages_Ok caller w set db db' rows :
  update_chat_messages caller w set db = Ok (db', rows) →
  let target c :=
    chat_select_by_owner caller db c
    && chat_update_by_owner caller db c && w c in
  db' = with_chat_messages db
          ((λ c, if target c then set c else c) <$> chat_messages db)
  ∧ rows = set <$> filter (λ c, target c) (chat_messages db)
  ∧ (NoDup (c_id <$> chat_messages db) → NoDup (c_id <$> chat_messages db'))
  ∧ (∀ c, c ∈ chat_messages db → target c →
       chat_update_by_owner caller db (set c)
       ∧ role_check (c_role (set c))
       ∧ c_user_id (set c) ∈ auth_users db
       ∧ c_memory_id (set c) ∈ (m_id <$> memories db)).
Proof.
  unfold update_chat_messages. intros H.
  apply update_chat_messages_values_Ok in H as (Hdb & Hrows & Hk & Hnew).
  assert (Hw : ∀ c, c ∈ chat_messages db →
            chat_select_by_owner caller db c
            && chat_update_by_owner caller db c && w c = true →
            update_chat_message_row caller db (chat_message_columns (set c))
            = Ok (set c)).
  { intros c Hc Ht. destruct (Hnew c Hc) as (Hset & Hown & Hrole & _);
      [by rewrite Ht|].
    rewrite update_chat_message_row_columns.
    apply chat_message_columns_inj in Hset. rewrite <-Hset in Hown, Hrole.
    destruct (chat_update_by_owner caller db (set c)); [|done].
    by destruct (role_check (c_role (set c))). }
  destruct (fmap_written _ _ _ _ Hw) as [Htable Hwritten].
  rewrite Htable in Hdb. rewrite Hwritten in Hrows.
  split_and!; [done..|].
  intros c Hc Ht. destruct (Hnew c Hc Ht) as (_ & Hown & Hrole & Hu & Hm).
  unfold written in Hown, Hrole, Hu, Hm.
  rewrite (Hw c Hc (Is_true_true_1 _ Ht)) in Hown, Hrole, Hu, Hm. done.
Qed.

(** The statements on users' memories and records do not write to
    [chat_messages]; a DELETE of memories and of a user does, by cascade. *)
Lemma execute_keeps_chat_messages e caller s db db' :
  execute e caller s db = Ok db' →
  match s with
  | InsertUser _ | InsertMemory _ | UpdateMemories _ _
  | InsertRecord _ | UpdateRecords _ _ | DeleteRecords _ =>
      chat_messages db' = chat_messages db
  | _ => True
  end.
Proof.
  destruct s; simpl; try done.
  - unfold insert_user. intros H. accepted. by subst.
  - intros (x & H & ->)%fmap_Ok. destruct x as [d row].
    by apply insert_memory_Ok in H as (-> & _).
  - intros (x & H & ->)%fmap_Ok. destruct x as [d rows].
    by apply update_memories_values_Ok in H as (-> & _).
  - intros (x & H & ->)%fmap_Ok. destruct x as [d row].
    by apply insert_record_Ok in H as (-> & _).
  - intros (x & H & ->)%fmap_Ok. destruct x as [d rows].
    by apply update_records_values_Ok in H as (-> & _).
  - by intros [= <-].
Qed.

(** ** Changes to a stored chat message *)

(** C9, as the specification states it, fails: Alice rewrites the content
    of the message she sent, and she deletes it herself. *)
Lemma owner_rewrites_chat_message :
  update_chat_messages (Some alice) (chat_message_id_is 101)
    (set_content "edited") chatty_db
  = Ok (with_chat_messages chatty_db
          [ChatMessage 101 alice notes "user" "edited" 1],
        [ChatMessage 101 alice notes "user" "edited" 1])
  ∧ delete_chat_messages (Some alice) (chat_message_id_is 101) chatty_db
    = (with_chat_messages chatty_db [],
       [ChatMessage 101 alice notes "user" "hello" 1]).
Proof. by vm_compute. Qed.

(** C9, amended. A stored chat message is changed or removed only by an
    UPDATE or DELETE of chat messages issued by its owner, by the pruning
    after an INSERT of its owner, by the cascade of a DELETE of its parent
    memory, or by the cascade of the removal of a user; a statement of any
    other caller leaves the row as it is. *)
Theorem chat_message_changed_only_by_owner e caller s db c :
  c ∈ chat_messages db →
  c ∉ chat_messages (commit e caller s db) →
  may_change_chat_message caller s db c.
Proof.
  intros Hc Hgone. unfold commit in Hgone.
  destruct (execute e caller s db) as [db'|err] eqn:Hexec; [|done].
  pose proof (execute_keeps_chat_messages _ _ _ _ _ Hexec) as Hkeep.
  destruct s; simpl in *; try (by rewrite Hkeep in Hgone).
  - (* DeleteUser *)
    injection Hexec as <-. simpl in Hgone.
    rewrite list_elem_of_filter in Hgone.
    destruct (decide (c_user_id c = u)) as [|Hu]; [by left|right].
    destruct (decide (c_memory_id c ∈ m_id <$>
                filter (λ m, m_user_id m = u) (memories db))) as [Hin|]; [|tauto].
    apply list_elem_of_fmap in Hin as (m & Hid & [Hm Hin]%list_elem_of_filter).
    eauto.
  - (* DeleteMemories *)
    injection Hexec as <-. simpl in Hgone.
    rewrite list_elem_of_filter in Hgone.
    destruct (decide (c_memory_id c ∈ m_id <$>
                filter (λ m, memories_select_own caller m
                  && memories_delete_own caller m && w m) (memories db)))
      as [Hin|]; [|tauto].
    apply list_elem_of_fmap in Hin as (m & Hid & [Hm Hin]%list_elem_of_filter).
    apply andb_True in Hm as [[Hs _]%andb_True Hw].
    apply auth_uid_is_True in Hs. apply Is_true_true in Hw. eauto 6.
  - (* InsertChatMessage *)
    apply fmap_Ok in Hexec as ([d row] & Hins & ->).
    by apply insert_chat_message_not_Ok in Hins.
  - (* UpdateChatMessages *)
    apply fmap_Ok in Hexec as ([d rows] & Hupd & ->).
    apply update_chat_messages_values_Ok in Hupd as (-> & _).
    simpl in Hgone.
    destruct (chat_select_by_owner caller db c) eqn:Hs; [done|].
    exfalso. apply Hgone, list_elem_of_fmap. exists c. by rewrite Hs.
  - (* DeleteChatMessages *)
    injection Hexec as <-. simpl in Hgone.
    rewrite list_elem_of_filter in Hgone.
    destruct (chat_select_by_owner caller db c) eqn:Hs; [done|].
    exfalso. apply Hgone. simpl. tauto.
Qed.

Lemma chat_message_changed_only_by_owner_example :
  ChatMessage 101 alice notes "user" "hello" 1 ∈ chat_messages chatty_db
  ∧ by_owner (Some alice) chatty_db alice notes = true
  ∧ ChatMessage 101 alice notes "user" "hello" 1
    ∈ chat_messages (commit (Env 2 0 false) (Some bob)
        (UpdateChatMessages (chat_message_id_is 101)
           (λ c, chat_message_columns (set_content "edited" c)))
        chatty_db).
Proof.
  assert (Hin : ChatMessage 101 alice notes "user" "hello" 1
                ∈ chat_messages chatty_db)
    by (apply (bool_decide_unpack _); by vm_compute).
  split; [exact Hin|]. split.
  - apply (chat_message_changed_only_by_owner (Env 2 0 false) (Some alice)
      (UpdateChatMessages (chat_message_id_is 101)
         (λ c, chat_message_columns (set_content "edited" c)))
      chatty_db (ChatMessage 101 alice notes "user" "hello" 1) Hin).
    apply (bool_decide_unpack _). by vm_compute.
  - apply (bool_decide_unpack _). by vm_compute.
Defined.

(** ** Integrity of the reachable databases *)

Lemma elem_of_update {A} (t : A → bool) (f : A → A) (l : list A) (x : A) :
  x ∈ (λ y, if t y then f y else y) <$> l →
  x ∈ l ∨ ∃ y, y ∈ l ∧ t y = true ∧ x = f y.
Proof.
  intros (y & -> & Hy)%list_elem_of_fmap.
  destruct (t y) eqn:Ht; eauto.
Qed.

Lemma elem_of_snoc {A} (l : list A) (x y : A) :
  x ∈ l ++ [y] ↔ x ∈ l ∨ x = y.
Proof. by rewrite elem_of_app, list_elem_of_singleton. Qed.

(** [references auth.users(id)] holds after every accepted statement. *)
Lemma execute_users_exist e caller s db db' :
  execute e caller s db = Ok db' → users_exist db → users_exist db'.
Proof.
  intros Hexec (Hm & Hr & Hc). destruct s; simpl in Hexec.
  - unfold insert_user in Hexec. accepted. subst.
    split_and!; simpl; intros a Ha; apply elem_of_app; left; auto.
  - injection Hexec as <-. unfold delete_user.
    split_and!; simpl; intros a [Hu Ha]%list_elem_of_filter;
      apply list_elem_of_filter; (split; [tauto|auto]).
  - apply fmap_Ok in Hexec as ([d row] & H & ->).
    apply insert_memory_Ok in H as (-> & _ & _ & _ & _ & Hu).
    split_and!; simpl; [|done..].
    intros a [Ha| ->]%elem_of_snoc; auto.
  - apply fmap_Ok in Hexec as ([d rows] & H & ->).
    apply update_memories_values_Ok in H as (-> & _ & _ & Hnew).
    split_and!; simpl; [|done..].
    intros a [Ha|(y & Hy & Ht & ->)]%elem_of_update; [by auto|].
    apply Hnew; [done|by apply Is_true_true].
  - injection Hexec as <-. unfold delete_memories.
    split_and!; simpl; intros a [_ Ha]%list_elem_of_filter; auto.
  - apply fmap_Ok in Hexec as ([d row] & H & ->).
    apply insert_record_Ok in H as (-> & _ & _ & _ & _ & _ & Hu & _).
    split_and!; simpl; [done| |done].
    intros a [Ha| ->]%elem_of_snoc; auto.
  - apply fmap_Ok in Hexec as ([d rows] & H & ->).
    apply update_records_values_Ok in H as (-> & _ & _ & Hnew).
    split_and!; simpl; [done| |done].
    intros a [Ha|(y & Hy & Ht & ->)]%elem_of_update; [by auto|].
    apply Hnew; [done|by apply Is_true_true].
  - injection Hexec as <-. unfold delete_records.
    split_and!; simpl; [done| |done].
    intros a [_ Ha]%list_elem_of_filter; auto.
  - apply fmap_Ok in Hexec as ([d row] & H & ->).
    by apply insert_chat_message_not_Ok in H.
  - apply fmap_Ok in Hexec as ([d rows] & H & ->).
    apply update_chat_messages_values_Ok in H as (-> & _ & _ & Hnew).
    split_and!; simpl; [done..|].
    intros a [Ha|(y & Hy & Ht & ->)]%elem_of_update; [by auto|].
    apply Hnew; [done|by apply Is_true_true].
  - injection Hexec as <-. unfold delete_chat_messages.
    split_and!; simpl; [done..|].
    intros a [_ Ha]%list_elem_of_filter; auto.
Qed.

Lemma elem_of_ids {A} (key : A → uuid) (l : list A) (id : uuid) :
  id ∈ key <$> l ↔ ∃ x, x ∈ l ∧ key x = id.
Proof. rewrite list_elem_of_fmap. split; intros (x & ? & ?); eauto. Qed.

Lemma memory_referenced_true db id :
  id ∈ r_memory_id <$> memory_records db
  ∨ id ∈ c_memory_id <$> chat_messages db →
  memory_referenced db id = true.
Proof. intros H. by apply bool_decide_eq_true. Qed.

(** A memory that rows refer to is still there after an UPDATE. *)
Lemma update_memories_keeps_parent e caller w set db db' rows id :
  update_memories_values e caller w set db = Ok (db', rows) →
  memory_referenced db id = true →
  id ∈ m_id <$> memories db → id ∈ m_id <$> memories db'.
Proof.
  intros Hupd Href (m & Hm & <-)%elem_of_ids.
  pose proof (update_memories_values_Ok _ _ _ _ _ _ _ Hupd)
    as (Hdb' & _ & _ & Hnew).
  destruct (memories_select_own caller m && memories_update_own caller m
            && w m) eqn:Ht.
  - destruct (Hnew m Hm) as (_ & _ & _ & [?|Hno]);
      [by rewrite Ht|done|congruence].
  - subst db'. simpl. apply elem_of_ids. exists m. split; [|done].
    apply list_elem_of_fmap. exists m. by rewrite Ht.
Qed.

(** [references public.memories(id)] holds after every accepted
    statement. *)
Lemma execute_memories_exist e caller s db db' :
  execute e caller s db = Ok db' → memories_exist db → memories_exist db'.
Proof.
  intros Hexec (Hr & Hc). destruct s; simpl in Hexec.
  - unfold insert_user in Hexec. accepted. by subst.
  - injection Hexec as <-. unfold delete_user.
    split; simpl; intros a [[Hu Hg] Ha]%list_elem_of_filter;
      [apply Hr in Ha|apply Hc in Ha];
      apply elem_of_ids in Ha as (m & Hm & Hid); apply elem_of_ids;
      exists m; (split; [|done]); apply list_elem_of_filter;
      (split; [|done]); intros Hmu; apply Hg, elem_of_ids; exists m;
      (split; [|done]); by apply list_elem_of_filter.
  - apply fmap_Ok in Hexec as ([d row] & H & ->).
    apply insert_memory_Ok in H as (-> & _).
    split; simpl; intros a Ha; rewrite fmap_app, elem_of_app; left; auto.
  - apply fmap_Ok in Hexec as ([d rows] & H & ->).
    pose proof (update_memories_values_Ok _ _ _ _ _ _ _ H) as (Hdb' & _).
    split; intros a Ha; assert (Ha' := Ha); rewrite Hdb' in Ha'; simpl in Ha';
      (eapply update_memories_keeps_parent; [done| |by auto]);
      apply memory_referenced_true; [left|right];
      by apply list_elem_of_fmap_2.
  - injection Hexec as <-. unfold delete_memories.
    split; simpl; intros a [Hg Ha]%list_elem_of_filter;
      [apply Hr in Ha|apply Hc in Ha];
      apply elem_of_ids in Ha as (m & Hm & Hid); apply elem_of_ids;
      exists m; (split; [|done]); apply list_elem_of_filter;
      (split; [|done]); intros Hmu; apply Hg, elem_of_ids; exists m;
      (split; [|done]); by apply list_elem_of_filter.
  - apply fmap_Ok in Hexec as ([d row] & H & ->).
    apply insert_record_Ok in H as (-> & _ & _ & _ & _ & _ & _ & Hm).
    split; simpl; [|done].
    intros a [Ha| ->]%elem_of_snoc; auto.
  - apply fmap_Ok in Hexec as ([d rows] & H & ->).
    apply update_records_values_Ok in H as (-> & _ & _ & Hnew).
    split; simpl; [|done].
    intros a [Ha|(y & Hy & Ht & ->)]%elem_of_update; [by auto|].
    apply Hnew; [done|by apply Is_true_true].
  - injection Hexec as <-. unfold delete_records.
    split; simpl; [|done].
    intros a [_ Ha]%list_elem_of_filter; auto.
  - apply fmap_Ok in Hexec as ([d row] & H & ->).
    by apply insert_chat_message_not_Ok in H.
  - apply fmap_Ok in Hexec as ([d rows] & H & ->).
    apply update_chat_messages_values_Ok in H as (-> & _ & _ & Hnew).
    split; simpl; [done|].
    intros a [Ha|(y & Hy & Ht & ->)]%elem_of_update; [by auto|].
    apply Hnew; [done|by apply Is_true_true].
  - injection Hexec as <-. unfold delete_chat_messages.
    split; simpl; [done|].
    intros a [_ Ha]%list_elem_of_filter; auto.
Qed.

Lemma NoDup_snoc_key {A} (key : A → uuid) (l : list A) (x : A) :
  NoDup (key <$> l) → key x ∉ key <$> l → NoDup (key <$> (l ++ [x])).
Proof.
  intros Hl Hx. rewrite fmap_app, NoDup_app. split_and!; [done| |].
  - by intros i Hi ->%list_elem_of_singleton.
  - apply NoDup_singleton.
Qed.

(** The primary keys stay unique after every accepted statement. *)
Lemma execute_keys_unique e caller s db db' :
  execute e caller s db = Ok db' → keys_unique db → keys_unique db'.
Proof.
  intros Hexec (Hu & Hm & Hr & Hc). destruct s; simpl in Hexec.
  - unfold insert_user in Hexec. accepted. subst.
    split_and!; simpl; [|done..].
    rewrite <-(list_fmap_id (_ ++ _)). apply NoDup_snoc_key; by rewrite list_fmap_id.
  - injection Hexec as <-. unfold delete_user.
    split_and!; simpl; [by apply NoDup_filter|by apply key_NoDup_filter..].
  - apply fmap_Ok in Hexec as ([d row] & H & ->).
    apply insert_memory_Ok in H as (-> & _ & _ & _ & Hid & _).
    split_and!; simpl; [done| |done..]. by apply NoDup_snoc_key.
  - apply fmap_Ok in Hexec as ([d rows] & H & ->).
    pose proof (update_memories_values_Ok _ _ _ _ _ _ _ H)
      as (Hdb' & _ & Hk & _).
    specialize (Hk Hm). rewrite Hdb' in Hk |- *. by split_and!.
  - injection Hexec as <-. unfold delete_memories.
    split_and!; simpl; [done|by apply key_NoDup_filter..].
  - apply fmap_Ok in Hexec as ([d row] & H & ->).
    apply insert_record_Ok in H as (-> & _ & _ & _ & _ & Hid & _).
    split_and!; simpl; [done..| |done]. by apply NoDup_snoc_key.
  - apply fmap_Ok in Hexec as ([d rows] & H & ->).
    pose proof (update_records_values_Ok _ _ _ _ _ _ H)
      as (Hdb' & _ & Hk & _).
    specialize (Hk Hr). rewrite Hdb' in Hk |- *. by split_and!.
  - injection Hexec as <-. unfold delete_records.
    split_and!; simpl; [done..| |done]. by apply key_NoDup_filter.
  - apply fmap_Ok in Hexec as ([d row] & H & ->).
    by apply insert_chat_message_not_Ok in H.
  - apply fmap_Ok in Hexec as ([d rows] & H & ->).
    pose proof (update_chat_messages_values_Ok _ _ _ _ _ _ H)
      as (Hdb' & _ & Hk & _).
    specialize (Hk Hc). rewrite Hdb' in Hk |- *. by split_and!.
  - injection Hexec as <-. unfold delete_chat_messages.
    split_and!; simpl; [done..|]. by apply key_NoDup_filter.
Qed.

Lemma commit_invariant (I : DB → Prop) e caller s db :
  (∀ db', execute e caller s db = Ok db' → I db → I db') →
  I db → I (commit e caller s db).
Proof. unfold commit. destruct (execute e caller s db); auto. Qed.

Lemma run_invariant (I : DB → Prop) :
  (∀ e caller s db db', execute e caller s db = Ok db' → I db → I db') →
  ∀ h db, I db → I (run h db).
Proof.
  intros Hstep h. induction h as [|[[e caller] s] h IH]; intros db Hdb; [done|].
  simpl. apply IH, commit_invariant; eauto.
Qed.

Example example_db_reachable : reachable example_db.
Proof.
  exists [(Env 0 0 false, None, InsertUser alice);
          (Env 0 0 false, None, InsertUser bob);
          (Env 0 notes false, Some alice,
           InsertMemory (MemoryValues None (Some alice)
                           (Some "notes"%string) None None None))].
  by vm_compute.
Qed.

(** Every database the statements can build from the empty one has unique
    keys and no dangling reference. *)
Lemma reachable_integrity db :
  reachable db → keys_unique db ∧ users_exist db ∧ memories_exist db.
Proof.
  intros [h <-]. split_and!.
  - apply run_invariant; [apply execute_keys_unique|].
    split_and!; apply NoDup_nil_2.
  - apply run_invariant; [apply execute_users_exist|].
    split_and!; by intros ? ?%elem_of_nil.
  - apply run_invariant; [apply execute_memories_exist|].
    split; by intros ? ?%elem_of_nil.
Qed.

(** ** Cascades *)

(** C4. A DELETE of memories removes, in the same statement, every record
    and every chat message under the memories it deletes, and nothing else
    from those tables: afterwards no record and no chat message refers to a
    deleted memory, and a database without dangling reference is left
    without one. *)
Theorem delete_memory_cascades caller w db :
  let db' := (delete_memories caller w db).1 in
  let gone := (delete_memories caller w db).2 in
  (∀ m, m ∈ memories db → caller = Some (m_user_id m) → w m = true →
     m ∈ gone)
  ∧ (∀ m, m ∈ gone →
       (m ∉ memories db')
       ∧ (∀ r, r ∈ memory_records db' → r_memory_id r ≠ m_id m)
       ∧ (∀ c, c ∈ chat_messages db' → c_memory_id c ≠ m_id m))
  ∧ (∀ r, r ∈ memory_records db →
       r ∈ memory_records db' ∨ r_memory_id r ∈ m_id <$> gone)
  ∧ (∀ c, c ∈ chat_messages db →
       c ∈ chat_messages db' ∨ c_memory_id c ∈ m_id <$> gone)
  ∧ (memories_exist db → memories_exist db').
Proof.
  simpl. split_and!.
  - intros m Hm Hc%auth_uid_is_true Hw. apply list_elem_of_filter.
    unfold memories_select_own, memories_delete_own. by rewrite Hc, Hw.
  - intros m Hm. split_and!.
    + intros [Hn _]%list_elem_of_filter.
      by apply list_elem_of_filter in Hm as [Ht _].
    + intros r [Hn _]%list_elem_of_filter Hid. apply Hn. rewrite Hid.
      by apply list_elem_of_fmap_2.
    + intros c [Hn _]%list_elem_of_filter Hid. apply Hn. rewrite Hid.
      by apply list_elem_of_fmap_2.
  - intros r Hr. rewrite list_elem_of_filter.
    destruct (decide (r_memory_id r ∈ m_id <$>
      filter (λ m, memories_select_own caller m
                   && memories_delete_own caller m && w m) (memories db)));
      tauto.
  - intros c Hc. rewrite list_elem_of_filter.
    destruct (decide (c_memory_id c ∈ m_id <$>
      filter (λ m, memories_select_own caller m
                   && memories_delete_own caller m && w m) (memories db)));
      tauto.
  - by apply (execute_memories_exist (Env 0 0 false) caller (DeleteMemories w)).
Qed.

Example alice_deletes_her_memory :
  delete_memories (Some alice) (memory_id_is notes) example_db_after
  = (mkDB [alice; bob] [] [] [], [Memory notes alice "notes" None 0 0]).
Proof. by vm_compute. Qed.

(** C10. Removing a user from [auth.users] removes every memory, record
    and chat message of that user, and no database that the statements
    can build holds a row of a user who is not in [auth.users]. *)
Theorem delete_user_cascades :
  (∀ u db,
     let db' := delete_user u db in
     (u ∉ auth_users db')
     ∧ (∀ m, m ∈ memories db' → m_user_id m ≠ u)
     ∧ (∀ r, r ∈ memory_records db' → r_user_id r ≠ u)
     ∧ (∀ c, c ∈ chat_messages db' → c_user_id c ≠ u))
  ∧ (∀ db, reachable db → users_exist db).
Proof.
  split; [|by intros db (_ & ? & _)%reachable_integrity].
  intros u db. simpl. split_and!.
  - by intros [? _]%list_elem_of_filter.
  - by intros m [? _]%list_elem_of_filter.
  - by intros r [[? _] _]%list_elem_of_filter.
  - by intros c [[? _] _]%list_elem_of_filter.
Qed.

Example alice_is_removed :
  delete_user alice example_db_after = mkDB [bob] [] [] [].
Proof. by vm_compute. Qed.

(** * Further properties of the schema *)

(** ** What the write policies fix *)

(** X1. An INSERT into [memories] is accepted only for a row whose
    [user_id] is the caller; a session that is not signed in, or a row for
    another user, is refused by the policy and the database stays as it
    was. *)
Theorem insert_memory_requires_owner e caller v db :
  (∀ db' row, insert_memory e caller v db = Ok (db', row) →
     caller = Some (m_user_id row) ∧ mv_user_id v = caller)
  ∧ (caller = None ∨ mv_user_id v ≠ caller →
     insert_memory e caller v db = Error insufficient_privilege
     ∧ commit e caller (InsertMemory v) db = db).
Proof.
  split.
  - intros db' row (_ & Hu & _ & Hc & _)%insert_memory_Ok. by rewrite Hu, Hc.
  - intros Hno.
    assert (memories_insert_own caller (mv_user_id v) = false) as Hpol.
    { unfold memories_insert_own.
      destruct (mv_user_id v) as [u|]; simpl; [|done].
      apply not_true_is_false. intros ->%auth_uid_is_true.
      by destruct Hno. }
    unfold commit, execute, insert_memory. by rewrite Hpol.
Qed.

(** X2. An accepted UPDATE of [memories] leaves every memory with the owner
    it had, and every row it wrote is owned by the caller.  An UPDATE that
    would hand a memory of the caller to another user, or to none, is not
    accepted, and the database stays as it was; it is the policy that
    refuses it where the SET clause gives no NULL and leaves the ids as they
    are, on a table with unique ids. *)
Theorem memory_owner_is_fixed e caller w db :
  (∀ set db' rows,
     update_memories_values e caller w set db = Ok (db', rows) →
     m_user_id <$> memories db' = m_user_id <$> memories db
     ∧ ∀ new, new ∈ rows → caller = Some (m_user_id new))
  ∧ (∀ set old, old ∈ memories db → caller = Some (m_user_id old) →
       w old = true → mv_user_id (set old) ≠ Some (m_user_id old) →
       (∃ err, update_memories_values e caller w set db = Error err)
       ∧ commit e caller (UpdateMemories w set) db = db)
  ∧ (∀ set old, NoDup (m_id <$> memories db) →
       (∀ m, m_id (set m) = m_id m) →
       old ∈ memories db → caller = Some (m_user_id old) → w old = true →
       m_user_id (set old) ≠ m_user_id old →
       update_memories e caller w set db = Error insufficient_privilege).
Proof.
  assert (Htarget : ∀ old, caller = Some (m_user_id old) → w old = true →
            memories_select_own caller old && memories_update_own caller old
            && w old = true).
  { intros old Hc%auth_uid_is_true Hw.
    unfold memories_select_own, memories_update_own. by rewrite Hc, Hw. }
  split_and!.
  - intros set db' rows Hupd.
    pose proof (update_memories_values_Ok _ _ _ _ _ _ _ Hupd)
      as (-> & -> & _ & Hnew). simpl in *. split.
    + rewrite <-list_fmap_compose. apply list_fmap_ext.
      intros i m Hm%list_elem_of_lookup_2. simpl.
      destruct (memories_select_own caller m && memories_update_own caller m
                && w m) eqn:Ht; [|done].
      destruct (Hnew m Hm) as (_ & Hc & _); [by rewrite Ht|].
      apply auth_uid_is_True in Hc. simpl in Hc.
      apply andb_true_iff in Ht as [[Hs _]%andb_true_iff _].
      apply auth_uid_is_true in Hs. simpl. congruence.
    + intros new (old & -> & [Ht Hold]%list_elem_of_filter)%list_elem_of_fmap.
      destruct (Hnew old Hold Ht) as (_ & Hc & _).
      by apply auth_uid_is_True in Hc.
  - intros set old Hold Hc Hw Hset.
    assert (∃ err, update_memories_values e caller w set db = Error err)
      as [err Herr].
    { destruct (update_memories_values e caller w set db) as [[db' rows]|err]
        eqn:Hupd; [exfalso|by eauto].
      pose proof (update_memories_values_Ok _ _ _ _ _ _ _ Hupd)
        as (_ & _ & _ & Hnew).
      destruct (Hnew old Hold) as (Hrow & Hown & _);
        [by rewrite Htarget|].
      apply update_memory_row_Ok in Hrow as (_ & Hu & _ & _ & _ & _ & Hc').
      congruence. }
    split; [by eauto|]. unfold commit, execute. by rewrite Herr.
  - intros set old Hk Hid Hold Hc Hw Hset.
    unfold update_memories, update_memories_values.
    rewrite (update_rows_refused m_id _ _ insufficient_privilege); [done..| |].
    + intros m Hm Ht. rewrite update_memory_row_columns.
      destruct (memories_update_own caller (set m)); simpl; [left|by right].
      eexists. split; [done|]. simpl. apply Hid.
    + exists old. split_and!; [done|by apply Htarget|].
      rewrite update_memory_row_columns.
      unfold memories_update_own.
      destruct (auth_uid_is caller (m_user_id (set old))) eqn:Hown; [|done].
      apply auth_uid_is_true in Hown. congruence.
Qed.

Example alice_cannot_give_her_memory_away :
  update_memories (Env 5 0 false) (Some alice) (memory_id_is notes)
    (set_memory_user bob) example_db
  = Error insufficient_privilege.
Proof. by vm_compute. Qed.

(** X3. An accepted UPDATE of [memory_records] or of [chat_messages]
    leaves every row with the owner it had, and every row it wrote is owned
    by the caller and sits under a memory the caller owns; an UPDATE that
    would move a row of the caller under a memory that is not the caller's
    is refused by the policy. *)
Theorem row_owner_and_parent_are_checked caller db :
  (∀ w set db' rows, update_records caller w set db = Ok (db', rows) →
     r_user_id <$> memory_records db' = r_user_id <$> memory_records db
     ∧ ∀ new, new ∈ rows →
         caller = Some (r_user_id new)
         ∧ ∃ m, m ∈ memories db ∧ m_id m = r_memory_id new
                ∧ m_user_id m = r_user_id new)
  ∧ (∀ w set db' rows, update_chat_messages caller w set db = Ok (db', rows) →
     c_user_id <$> chat_messages db' = c_user_id <$> chat_messages db
     ∧ ∀ new, new ∈ rows →
         caller = Some (c_user_id new)
         ∧ ∃ m, m ∈ memories db ∧ m_id m = c_memory_id new
                ∧ m_user_id m = c_user_id new)
  ∧ (∀ w id old, old ∈ memory_records db →
       by_owner caller db (r_user_id old) (r_memory_id old) = true →
       w old = true → exists_own_memory caller db id = false →
       update_records caller w (set_record_memory id) db
       = Error insufficient_privilege)
  ∧ (∀ w id old, old ∈ chat_messages db →
       by_owner caller db (c_user_id old) (c_memory_id old) = true →
       w old = true → exists_own_memory caller db id = false →
       update_chat_messages caller w (set_chat_memory id) db
       = Error insufficient_privilege).
Proof.
  split_and!.
  - intros w set db' rows Hupd.
    pose proof (update_records_Ok _ _ _ _ _ _ Hupd) as (-> & -> & _ & Hnew).
    simpl in *. split.
    + rewrite <-list_fmap_compose. apply list_fmap_ext.
      intros i r Hr%list_elem_of_lookup_2. simpl.
      destruct (records_select_by_owner caller db r
                && records_update_by_owner caller db r && w r) eqn:Ht; [|done].
      destruct (Hnew r Hr) as (Hc & _); [by rewrite Ht|].
      apply Is_true_true, by_owner_true in Hc as [Hc _].
      apply andb_true_iff in Ht as [[Hs _]%andb_true_iff _].
      apply by_owner_true in Hs as [Hs _]. simpl. congruence.
    + intros new (old & -> & [Ht Hold]%list_elem_of_filter)%list_elem_of_fmap.
      destruct (Hnew old Hold Ht) as (Hc & _).
      by apply Is_true_true, by_owner_true in Hc.
  - intros w set db' rows Hupd.
    pose proof (update_chat_messages_Ok _ _ _ _ _ _ Hupd)
      as (-> & -> & _ & Hnew).
    simpl in *. split.
    + rewrite <-list_fmap_compose. apply list_fmap_ext.
      intros i c Hin%list_elem_of_lookup_2. simpl.
      destruct (chat_select_by_owner caller db c
                && chat_update_by_owner caller db c && w c) eqn:Ht; [|done].
      destruct (Hnew c Hin) as (Hc & _); [by rewrite Ht|].
      apply Is_true_true, by_owner_true in Hc as [Hc _].
      apply andb_true_iff in Ht as [[Hs _]%andb_true_iff _].
      apply by_owner_true in Hs as [Hs _]. simpl. congruence.
    + intros new (old & -> & [Ht Hold]%list_elem_of_filter)%list_elem_of_fmap.
      destruct (Hnew old Hold Ht) as (Hc & _).
      by apply Is_true_true, by_owner_true in Hc.
  - intros w id old Hold Ho Hw Hid.
    unfold update_records, update_records_values.
    rewrite (update_rows_all_refused r_id _ _ insufficient_privilege); [done| |].
    + intros r _ _. rewrite update_record_row_columns.
      unfold records_update_by_owner, by_owner. simpl.
      by rewrite Hid, andb_false_r.
    + exists old. split; [done|].
      unfold records_select_by_owner, records_update_by_owner.
      by rewrite Ho, Hw.
  - intros w id old Hold Ho Hw Hid.
    unfold update_chat_messages, update_chat_messages_values.
    rewrite (update_rows_all_refused c_id _ _ insufficient_privilege); [done| |].
    + intros c _ _. rewrite update_chat_message_row_columns.
      unfold chat_update_by_owner, by_owner. simpl.
      by rewrite Hid, andb_false_r.
    + exists old. split; [done|].
      unfold chat_select_by_owner, chat_update_by_owner.
      by rewrite Ho, Hw.
Qed.

(** ** The ownership chain *)

Lemma by_owner_unique_parent caller db u id m :
  NoDup (m_id <$> memories db) →
  by_owner caller db u id = true →
  m ∈ memories db → m_id m = id → m_user_id m = u.
Proof.
  intros Hk (_ & m' & Hm' & Hid & Hu)%by_owner_true Hm Hid'.
  assert (m = m') as -> by (eapply (key_inj m_id); eauto; congruence). done.
Qed.

(** The ownership chain holds after every accepted statement on a database
    with unique keys and no dangling reference. *)
Lemma execute_ownership_chain e caller s db db' :
  execute e caller s db = Ok db' →
  keys_unique db → memories_exist db →
  ownership_chain db → ownership_chain db'.
Proof.
  intros Hexec (_ & Hkm & _ & _) (Her & Hec) (Hr & Hc).
  destruct s; simpl in Hexec.
  - unfold insert_user in Hexec. accepted. by subst.
  - injection Hexec as <-. unfold delete_user.
    split; simpl; intros a m [_ Ha]%list_elem_of_filter
      [_ Hm]%list_elem_of_filter; auto.
  - apply fmap_Ok in Hexec as ([d row] & H & ->).
    apply insert_memory_Ok in H as (-> & _ & _ & _ & Hfresh & _).
    split; simpl; intros a m Ha [Hm| ->]%elem_of_snoc Hid; auto;
      exfalso; apply Hfresh; rewrite Hid; auto.
  - apply fmap_Ok in Hexec as ([d rows] & H & ->).
    pose proof (update_memories_values_Ok _ _ _ _ _ _ _ H)
      as (Hdb' & _ & Hk' & Hnew).
    specialize (Hk' Hkm). simpl in Hdb', Hnew.
    remember (written (λ old, update_memory_row e caller (set old))) as new
      eqn:Heqnew.
    assert (Hmoved : ∀ y x, y ∈ memories db → x ∈ memories db →
      memories_select_own caller y && memories_update_own caller y && w y
      = true →
      m_id x = m_id (new y) →
      m_user_id (new y) = m_user_id x).
    { intros y x Hy Hx Ht Hid.
      destruct (Hnew y Hy) as (_ & Hown%auth_uid_is_True & _);
        [by rewrite Ht|].
      destruct (memories_select_own caller x && memories_update_own caller x
                && w x) eqn:Htx.
      - apply andb_true_iff in Htx as [[Hs%auth_uid_is_true _]%andb_true_iff _].
        congruence.
      - exfalso. rewrite Hdb' in Hk'. simpl in Hk'.
        rewrite <-list_fmap_compose in Hk'.
        assert (y = x) as ->; [|congruence].
        eapply (key_inj _ (memories db)); [exact Hk'|done..|].
        simpl. by rewrite Ht, Htx. }
    subst d. split; simpl.
    + intros a m Ha [Hm|(y & Hy & Ht & ->)]%elem_of_update Hid; [by auto|].
      pose proof (Her _ Ha) as Hx. apply elem_of_ids in Hx as (x & Hx & Hidx).
      rewrite (Hmoved y x); [by auto|done..|congruence].
    + intros a m Ha [Hm|(y & Hy & Ht & ->)]%elem_of_update Hid; [by auto|].
      pose proof (Hec _ Ha) as Hx. apply elem_of_ids in Hx as (x & Hx & Hidx).
      rewrite (Hmoved y x); [by auto|done..|congruence].
  - injection Hexec as <-. unfold delete_memories.
    split; simpl; intros a m [_ Ha]%list_elem_of_filter
      [_ Hm]%list_elem_of_filter; auto.
  - apply fmap_Ok in Hexec as ([d row] & H & ->).
    apply insert_record_Ok in H as (-> & _ & _ & _ & Ho & _).
    split; simpl; [|done].
    intros a m [Ha| ->]%elem_of_snoc Hm Hid; [by auto|].
    by eapply by_owner_unique_parent.
  - apply fmap_Ok in Hexec as ([d rows] & H & ->).
    apply update_records_values_Ok in H as (-> & _ & _ & Hnew).
    split; simpl; [|done].
    intros a m [Ha|(y & Hy & Ht & ->)]%elem_of_update Hm Hid; [by auto|].
    destruct (Hnew y Hy) as (_ & Ho%Is_true_true & _); [by rewrite Ht|].
    by eapply by_owner_unique_parent.
  - injection Hexec as <-. unfold delete_records.
    split; simpl; [|done].
    intros a m [_ Ha]%list_elem_of_filter; auto.
  - apply fmap_Ok in Hexec as ([d row] & H & ->).
    by apply insert_chat_message_not_Ok in H.
  - apply fmap_Ok in Hexec as ([d rows] & H & ->).
    apply update_chat_messages_values_Ok in H as (-> & _ & _ & Hnew).
    split; simpl; [done|].
    intros a m [Ha|(y & Hy & Ht & ->)]%elem_of_update Hm Hid; [by auto|].
    destruct (Hnew y Hy) as (_ & Ho%Is_true_true & _); [by rewrite Ht|].
    by eapply by_owner_unique_parent.
  - injection Hexec as <-. unfold delete_chat_messages.
    split; simpl; [done|].
    intros a m [_ Ha]%list_elem_of_filter; auto.
Qed.

Lemma execute_consistent e caller s db db' :
  execute e caller s db = Ok db' →
  keys_unique db ∧ memories_exist db ∧ ownership_chain db →
  keys_unique db' ∧ memories_exist db' ∧ ownership_chain db'.
Proof.
  intros Hexec (Hk & He & Hc). split_and!.
  - by eapply execute_keys_unique.
  - by eapply execute_memories_exist.
  - by eapply execute_ownership_chain.
Qed.

(** X4. In every database the statements can build from the empty one, a
    record and a chat message have the owner of their parent memory. *)
Theorem reachable_ownership_chain db : reachable db → ownership_chain db.
Proof.
  intros [h <-].
  apply (run_invariant
           (λ d, keys_unique d ∧ memories_exist d ∧ ownership_chain d)).
  - intros. by eapply execute_consistent.
  - split; [|split].
    + split_and!; apply NoDup_nil_2.
    + split; by intros ? ?%elem_of_nil.
    + split; by intros ? ? ?%elem_of_nil.
Qed.

(** X5. In every database the statements can build from the empty one the
    primary keys of the four tables are unique and every record and chat
    message refers to a memory that exists. *)
Theorem reachable_keys_and_references db :
  reachable db → keys_unique db ∧ memories_exist db.
Proof. intros (? & _ & ?)%reachable_integrity. done. Qed.

Lemma reachable_ownership_chain_example :
  reachable example_db_after ∧ ownership_chain example_db_after.
Proof.
  assert (reachable example_db_after) as Hreach
    by (exists example_history; vm_compute; reflexivity).
  split; [exact Hreach|]. exact (reachable_ownership_chain _ Hreach).
Defined.

Lemma reachable_keys_and_references_example :
  reachable example_db_after
  ∧ keys_unique example_db_after ∧ memories_exist example_db_after.
Proof.
  assert (reachable example_db_after) as Hreach
    by (exists example_history; vm_compute; reflexivity).
  split; [exact Hreach|]. exact (reachable_keys_and_references _ Hreach).
Defined.

(** ** What a caller reads *)

Lemma exists_own_memory_owned_by caller db id :
  exists_own_memory caller (owned_by caller db) id
  = exists_own_memory caller db id.
Proof.
  unfold exists_own_memory, memories_select_own. simpl.
  by rewrite list_filter_filter_l by done.
Qed.

Lemma by_owner_owned_by caller db u id :
  by_owner caller (owned_by caller db) u id = by_owner caller db u id.
Proof. unfold by_owner. by rewrite exists_own_memory_owned_by. Qed.

Lemma select_memories_owned_by caller w db :
  select_memories caller w (owned_by caller db) = select_memories caller w db.
Proof.
  unfold select_memories, memories_select_own. simpl.
  f_equal. by apply list_filter_filter_l.
Qed.

Lemma select_records_owned_by caller w db :
  select_records caller w (owned_by caller db) = select_records caller w db.
Proof.
  unfold select_records, records_select_by_owner. simpl. f_equal.
  rewrite list_filter_filter. apply list_filter_iff. intros r.
  rewrite by_owner_owned_by. unfold by_owner.
  rewrite andb_True. tauto.
Qed.

Lemma select_chat_messages_owned_by caller w db :
  select_chat_messages caller w (owned_by caller db)
  = select_chat_messages caller w db.
Proof.
  unfold select_chat_messages, chat_select_by_owner. simpl. f_equal.
  rewrite list_filter_filter. apply list_filter_iff. intros r.
  rewrite by_owner_owned_by. unfold by_owner.
  rewrite andb_True. tauto.
Qed.

(** X6. What a caller reads from the three tables depends on no row of
    another user: two databases that hold the same rows with the caller's
    [user_id] answer every SELECT of the caller alike. *)
Theorem select_reads_own_rows_only caller db1 db2 :
  owned_by caller db1 = owned_by caller db2 →
  (∀ w, select_memories caller w db1 = select_memories caller w db2)
  ∧ (∀ w, select_records caller w db1 = select_records caller w db2)
  ∧ (∀ w, select_chat_messages caller w db1
          = select_chat_messages caller w db2).
Proof.
  intros Heq. split_and!; intros w.
  - by rewrite <-select_memories_owned_by, Heq, select_memories_owned_by.
  - by rewrite <-select_records_owned_by, Heq, select_records_owned_by.
  - by rewrite <-select_chat_messages_owned_by, Heq,
      select_chat_messages_owned_by.
Qed.

Lemma select_reads_own_rows_only_example :
  owned_by (Some bob) example_db_after = owned_by (Some bob) empty_db
  ∧ (∀ w, select_memories (Some bob) w example_db_after = [])
  ∧ (∀ w, select_chat_messages (Some bob) w example_db_after = []).
Proof.
  assert (owned_by (Some bob) example_db_after = owned_by (Some bob) empty_db)
    as Heq by (vm_compute; reflexivity).
  destruct (select_reads_own_rows_only _ _ _ Heq) as (Hm & _ & Hc).
  split; [exact Heq|]. split; intros w; [apply Hm|apply Hc].
Defined.

(** ** Who changes a stored row *)

(** X7. A stored record is changed or removed only by an UPDATE or DELETE
    of records issued by its owner, by the cascade of a DELETE of its parent
    memory, or by the cascade of the removal of a user; every other
    statement, of any caller, leaves the row as it is. *)
Theorem record_changed_only_by_owner e caller s db r :
  r ∈ memory_records db →
  r ∉ memory_records (commit e caller s db) →
  may_change_record caller s db r.
Proof.
  intros Hr Hgone. unfold commit in Hgone.
  destruct (execute e caller s db) as [db'|err] eqn:Hexec; [|done].
  destruct s; simpl in *.
  - unfold insert_user in Hexec. accepted. by subst.
  - injection Hexec as <-. simpl in Hgone.
    rewrite list_elem_of_filter in Hgone.
    destruct (decide (r_user_id r = u)) as [|Hu]; [by left|right].
    destruct (decide (r_memory_id r ∈ m_id <$>
                filter (λ m, m_user_id m = u) (memories db))) as [Hin|];
      [|tauto].
    apply list_elem_of_fmap in Hin as (m & Hid & [Hm Hin]%list_elem_of_filter).
    eauto.
  - apply fmap_Ok in Hexec as ([d row] & H & ->).
    by apply insert_memory_Ok in H as (-> & _).
  - apply fmap_Ok in Hexec as ([d rows] & H & ->).
    by apply update_memories_values_Ok in H as (-> & _).
  - injection Hexec as <-. simpl in Hgone.
    rewrite list_elem_of_filter in Hgone.
    destruct (decide (r_memory_id r ∈ m_id <$>
                filter (λ m, memories_select_own caller m
                  && memories_delete_own caller m && w m) (memories db)))
      as [Hin|]; [|tauto].
    apply list_elem_of_fmap in Hin as (m & Hid & [Hm Hin]%list_elem_of_filter).
    apply andb_True in Hm as [[Hs _]%andb_True Hw].
    apply auth_uid_is_True in Hs. apply Is_true_true in Hw. eauto 6.
  - apply fmap_Ok in Hexec as ([d row] & H & ->).
    apply insert_record_Ok in H as (-> & _). simpl in Hgone.
    apply Hgone, elem_of_app. by left.
  - apply fmap_Ok in Hexec as ([d rows] & H & ->).
    apply update_records_values_Ok in H as (-> & _). simpl in Hgone.
    destruct (records_select_by_owner caller db r) eqn:Hs; [done|].
    exfalso. apply Hgone, list_elem_of_fmap. exists r. by rewrite Hs.
  - injection Hexec as <-. simpl in Hgone.
    rewrite list_elem_of_filter in Hgone.
    destruct (records_select_by_owner caller db r) eqn:Hs; [done|].
    exfalso. apply Hgone. simpl. tauto.
  - apply fmap_Ok in Hexec as ([d row] & H & ->).
    by apply insert_chat_message_not_Ok in H.
  - apply fmap_Ok in Hexec as ([d rows] & H & ->).
    by apply update_chat_messages_values_Ok in H as (-> & _).
  - by injection Hexec as <-.
Qed.

Lemma record_changed_only_by_owner_example :
  MemoryRecord 20 notes alice "mine" empty_object 1
    ∈ memory_records record_db
  ∧ by_owner (Some alice) record_db alice notes = true
  ∧ MemoryRecord 20 notes alice "mine" empty_object 1
    ∈ memory_records (commit (Env 2 0 false) (Some bob)
                        (DeleteRecords (record_id_is 20)) record_db).
Proof.
  assert (Hin : MemoryRecord 20 notes alice "mine" empty_object 1
                ∈ memory_records record_db)
    by (apply (bool_decide_unpack _); by vm_compute).
  split; [exact Hin|]. split.
  - apply (record_changed_only_by_owner (Env 2 0 false) (Some alice)
             (DeleteRecords (record_id_is 20)) record_db _ Hin).
    apply (bool_decide_unpack _). by vm_compute.
  - apply (bool_decide_unpack _). by vm_compute.
Defined.

(** X8. A stored memory is changed or removed only by an UPDATE or DELETE
    of memories issued by its owner and reaching it, or by the removal of
    its owner from [auth.users]. *)
Theorem memory_changed_only_by_owner e caller s db m :
  m ∈ memories db →
  m ∉ memories (commit e caller s db) →
  may_change_memory caller s m.
Proof.
  intros Hm Hgone. unfold commit in Hgone.
  destruct (execute e caller s db) as [db'|err] eqn:Hexec; [|done].
  destruct s; simpl in *.
  - unfold insert_user in Hexec. accepted. by subst.
  - injection Hexec as <-. simpl in Hgone.
    rewrite list_elem_of_filter in Hgone.
    destruct (decide (m_user_id m = u)); tauto.
  - apply fmap_Ok in Hexec as ([d row] & H & ->).
    apply insert_memory_Ok in H as (-> & _). simpl in Hgone.
    apply Hgone, elem_of_app. by left.
  - apply fmap_Ok in Hexec as ([d rows] & H & ->).
    apply update_memories_values_Ok in H as (-> & _). simpl in Hgone.
    destruct (memories_select_own caller m && memories_update_own caller m
              && w m) eqn:Ht.
    + apply andb_true_iff in Ht as [[Hs%auth_uid_is_true _]%andb_true_iff Hw].
      done.
    + exfalso. apply Hgone, list_elem_of_fmap. exists m. by rewrite Ht.
  - injection Hexec as <-. simpl in Hgone.
    rewrite list_elem_of_filter in Hgone.
    destruct (memories_select_own caller m && memories_delete_own caller m
              && w m) eqn:Ht.
    + apply andb_true_iff in Ht as [[Hs%auth_uid_is_true _]%andb_true_iff Hw].
      done.
    + exfalso. apply Hgone. tauto.
  - apply fmap_Ok in Hexec as ([d row] & H & ->).
    by apply insert_record_Ok in H as (-> & _).
  - apply fmap_Ok in Hexec as ([d rows] & H & ->).
    by apply update_records_values_Ok in H as (-> & _).
  - by injection Hexec as <-.
  - apply fmap_Ok in Hexec as ([d row] & H & ->).
    by apply insert_chat_message_not_Ok in H.
  - apply fmap_Ok in Hexec as ([d rows] & H & ->).
    by apply update_chat_messages_values_Ok in H as (-> & _).
  - by injection Hexec as <-.
Qed.

Lemma memory_changed_only_by_owner_example :
  Memory notes alice "notes" None 0 0 ∈ memories example_db
  ∧ Memory notes alice "notes" None 0 0
    ∈ memories (commit (Env 2 0 false) (Some bob)
                  (DeleteMemories (memory_id_is notes)) example_db)
  ∧ may_change_memory (Some alice) (DeleteMemories (memory_id_is notes))
      (Memory notes alice "notes" None 0 0).
Proof.
  assert (Hin : Memory notes alice "notes" None 0 0 ∈ memories example_db)
    by (apply (bool_decide_unpack _); by vm_compute).
  split; [exact Hin|]. split.
  - apply (bool_decide_unpack _). by vm_compute.
  - apply (memory_changed_only_by_owner (Env 2 0 false) (Some alice)
             (DeleteMemories (memory_id_is notes)) example_db _ Hin).
    apply (bool_decide_unpack _). by vm_compute.
Defined.

(** ** More on the retention trigger *)

(** No accepted statement puts a row into an empty [chat_messages]. *)
Lemma execute_chat_messages_empty e caller s db db' :
  execute e caller s db = Ok db' →
  chat_messages db = [] → chat_messages db' = [].
Proof.
  intros Hexec Hempty.
  pose proof (execute_keeps_chat_messages _ _ _ _ _ Hexec) as Hkeep.
  destruct s; simpl in *; try congruence.
  - injection Hexec as <-. simpl. by rewrite Hempty.
  - injection Hexec as <-. simpl. by rewrite Hempty.
  - apply fmap_Ok in Hexec as ([d row] & Hins & ->).
    by apply insert_chat_message_not_Ok in Hins.
  - apply fmap_Ok in Hexec as ([d rows] & Hupd & ->).
    apply update_chat_messages_values_Ok in Hupd as (-> & _).
    simpl. by rewrite Hempty.
  - injection Hexec as <-. simpl. by rewrite Hempty.
Qed.

(** X9. In every database the statements can build from the empty one,
    [chat_messages] is empty: the trigger refuses every INSERT into the
    table, and no other statement adds a row to it. *)
Theorem reachable_chat_messages_empty db :
  reachable db → chat_messages db = [].
Proof.
  intros [h <-].
  by apply (run_invariant (λ db, chat_messages db = []));
    [apply execute_chat_messages_empty|].
Qed.

Lemma reachable_chat_messages_empty_example :
  reachable example_db_after
  ∧ chat_messages example_db_after = []
  ∧ memory_records example_db_after
    = [MemoryRecord 20 notes alice "mine" empty_object 1].
Proof.
  assert (reachable example_db_after) as Hreach
    by (exists example_history; reflexivity).
  split; [exact Hreach|].
  split; [exact (reachable_chat_messages_empty _ Hreach)|].
  vm_compute; reflexivity.
Defined.

(** ** Inserting and reading back *)

(** X13. The owner reads back the memory and the record of an accepted
    INSERT by its id, as the one row the SELECT returns; any other caller
    gets no row for that id. *)
Theorem insert_then_select e caller db :
  (∀ v db' row, insert_memory e caller v db = Ok (db', row) →
     select_memories caller (memory_id_is (m_id row)) db' = [row]
     ∧ ∀ other, other ≠ caller →
         select_memories other (memory_id_is (m_id row)) db' = [])
  ∧ (∀ v db' row, insert_record e caller v db = Ok (db', row) →
     select_records caller (record_id_is (r_id row)) db' = [row]
     ∧ ∀ other, other ≠ caller →
         select_records other (record_id_is (r_id row)) db' = []).
Proof.
  split.
  - intros v db' row (-> & _ & _ & Hc & Hfresh & _)%insert_memory_Ok.
    assert (Hold : ∀ c, filter (λ m, memory_id_is (m_id row) m)
              (filter (λ m, memories_select_own c m) (memories db)) = []).
    { intros c. apply filter_none.
      intros m [_ Hm]%list_elem_of_filter Hid%bool_decide_unpack.
      apply Hfresh. rewrite <-Hid. by apply list_elem_of_fmap_2. }
    unfold select_memories. simpl. split.
    + rewrite !filter_app, Hold. simpl.
      rewrite (filter_all _ [row]), (filter_all _ [row]); [done|..];
        intros ? ->%list_elem_of_singleton.
      * by apply bool_decide_pack.
      * by apply auth_uid_is_True.
    + intros other Hother. rewrite !filter_app, Hold. simpl.
      rewrite (filter_none _ [row]); [done|].
      intros ? ->%list_elem_of_singleton Hs%auth_uid_is_True. congruence.
  - intros v db' row (-> & _ & _ & _ & Ho & Hfresh & _)%insert_record_Ok.
    assert (Hold : ∀ c, filter (λ r, record_id_is (r_id row) r)
              (filter (λ r, records_select_by_owner c db r)
                 (memory_records db)) = []).
    { intros c. apply filter_none.
      intros r [_ Hr]%list_elem_of_filter Hid%bool_decide_unpack.
      apply Hfresh. rewrite <-Hid. by apply list_elem_of_fmap_2. }
    unfold select_records. simpl. split.
    + rewrite !filter_app.
      change (filter (λ r, records_select_by_owner caller
                (with_memory_records db (memory_records db ++ [row])) r)
                (memory_records db))
        with (filter (λ r, records_select_by_owner caller db r)
                (memory_records db)).
      rewrite Hold. simpl.
      rewrite (filter_all _ [row]), (filter_all _ [row]); [done|..];
        intros ? ->%list_elem_of_singleton.
      * by apply bool_decide_pack.
      * by apply Is_true_true.
    + intros other Hother. rewrite !filter_app.
      change (filter (λ r, records_select_by_owner other
                (with_memory_records db (memory_records db ++ [row])) r)
                (memory_records db))
        with (filter (λ r, records_select_by_owner other db r)
                (memory_records db)).
      rewrite Hold. simpl.
      rewrite (filter_none _ [row]); [done|].
      intros ? ->%list_elem_of_singleton [Hs _]%Is_true_true%by_owner_true.
      apply by_owner_true in Ho as [Ho _]. congruence.
Qed.

Example alice_reads_her_record_back :
  ∃ db' row,
    insert_record (Env 1 20 false) (Some alice)
      (MemoryRecordValues None (Some notes) (Some alice)
         (Some "mine"%string) None None) example_db = Ok (db', row)
    ∧ select_records (Some alice) (record_id_is 20) db' = [row]
    ∧ select_records (Some bob) (record_id_is 20) db' = [].
Proof. eexists _, _. by vm_compute. Qed.



(** ** A session that is not signed in *)

Lemma update_records_none caller w set db :
  (∀ r, r ∈ memory_records db → records_select_by_owner caller db r = false) →
  update_records_values caller w set db = Ok (db, []).
Proof.
  intros Hno. unfold update_records_values.
  rewrite update_rows_no_target by (intros r Hr; by rewrite (Hno r Hr)).
  simpl. by destruct db.
Qed.

Lemma update_chat_messages_none caller w set db :
  (∀ c, c ∈ chat_messages db → chat_select_by_owner caller db c = false) →
  update_chat_messages_values caller w set db = Ok (db, []).
Proof.
  intros Hno. unfold update_chat_messages_values.
  rewrite update_rows_no_target by (intros c Hc; by rewrite (Hno c Hc)).
  simpl. by destruct db.
Qed.

Lemma delete_records_none caller w db :
  (∀ r, r ∈ memory_records db → records_select_by_owner caller db r = false) →
  delete_records caller w db = (db, []).
Proof.
  intros Hno. unfold delete_records.
  rewrite (filter_all _ (memory_records db)), filter_none;
    [by destruct db|..]; intros r Hr; rewrite (Hno r Hr); simpl; tauto.
Qed.

Lemma delete_chat_messages_none caller w db :
  (∀ c, c ∈ chat_messages db → chat_select_by_owner caller db c = false) →
  delete_chat_messages caller w db = (db, []).
Proof.
  intros Hno. unfold delete_chat_messages.
  rewrite (filter_all _ (chat_messages db)), filter_none;
    [by destruct db|..]; intros c Hc; rewrite (Hno c Hc); simpl; tauto.
Qed.

(** X15. A session that is not signed in reads no row of any table, and
    none of its statements on the three tables changes the database. *)
Theorem anonymous_session_has_no_access e db :
  keys_unique db →
  (∀ w, select_memories None w db = [])
  ∧ (∀ w, select_records None w db = [])
  ∧ (∀ w, select_chat_messages None w db = [])
  ∧ ∀ s, match s with
         | InsertUser _ | DeleteUser _ => True
         | _ => commit e None s db = db
         end.
Proof.
  intros (_ & Hkm & Hkr & Hkc). split_and!.
  - intros w. by apply select_memories_none.
  - intros w. unfold select_records.
    rewrite (filter_none _ (memory_records db)); [done|]. by intros r _ Hs.
  - intros w. unfold select_chat_messages.
    rewrite (filter_none _ (chat_messages db)); [done|]. by intros c _ Hs.
  - intros s. destruct s; try done; unfold commit, execute.
    + unfold insert_memory, memories_insert_own.
      by destruct (mv_user_id v).
    + by rewrite update_memories_values_none.
    + by rewrite delete_memories_none.
    + unfold insert_record, records_insert_by_owner, by_owner_values.
      by destruct (rv_user_id v), (rv_memory_id v).
    + by rewrite update_records_none.
    + by rewrite delete_records_none.
    + unfold insert_chat_message, insert_chat_row, chat_insert_by_owner,
        by_owner_values.
      by destruct (cv_user_id v), (cv_memory_id v).
    + by rewrite update_chat_messages_none.
    + by rewrite delete_chat_messages_none.
Qed.

Lemma anonymous_session_has_no_access_example :
  keys_unique example_db_after
  ∧ select_chat_messages None (λ _, true) example_db_after = []
  ∧ commit (Env 20 0 false) None (DeleteMemories (λ _, true)) example_db_after
    = example_db_after.
Proof.
  assert (keys_unique example_db_after) as Hk.
  { split_and!; apply (bool_decide_unpack _); by vm_compute. }
  destruct (anonymous_session_has_no_access (Env 20 0 false) _ Hk)
    as (_ & _ & Hc & Hs).
  split; [exact Hk|]. split; [apply Hc|].
  exact (Hs (DeleteMemories (λ _, true))).
Defined.

(** ** Statements one after another *)

(** X16. On a database without dangling reference, the owner's DELETE of
    the memory of an accepted INSERT, by its id, gives back the database as
    it was before the INSERT and returns that row. *)
Theorem insert_then_delete_memory e caller v db db' row :
  memories_exist db →
  insert_memory e caller v db = Ok (db', row) →
  delete_memories caller (memory_id_is (m_id row)) db' = (db, [row]).
Proof.
  intros [Hr Hc] (-> & _ & _ & Hown & Hfresh & _)%insert_memory_Ok.
  unfold delete_memories. simpl.
  assert (Hold : ∀ m, m ∈ memories db → memory_id_is (m_id row) m = false).
  { intros m Hm. apply bool_decide_eq_false. intros Hid.
    apply Hfresh. rewrite <-Hid. by apply list_elem_of_fmap_2. }
  assert (Hrow : memories_select_own caller row
                 && memories_delete_own caller row
                 && memory_id_is (m_id row) row = true).
  { unfold memories_select_own, memories_delete_own, memory_id_is.
    apply auth_uid_is_true in Hown.
    by rewrite Hown, bool_decide_eq_true_2. }
  assert (filter (λ m, memories_select_own caller m
            && memories_delete_own caller m && memory_id_is (m_id row) m)
            (memories db ++ [row]) = [row]) as ->.
  { rewrite filter_app, (filter_none _ (memories db)), (filter_all _ [row]).
    - done.
    - intros ? ->%list_elem_of_singleton. by rewrite Hrow.
    - intros m Hm. rewrite (Hold m Hm), andb_false_r. simpl. tauto. }
  assert (filter (λ m, ¬ (memories_select_own caller m
            && memories_delete_own caller m && memory_id_is (m_id row) m))
            (memories db ++ [row]) = memories db) as ->.
  { rewrite filter_app, (filter_all _ (memories db)), (filter_none _ [row]).
    - by rewrite app_nil_r.
    - intros ? ->%list_elem_of_singleton. rewrite Hrow. simpl. tauto.
    - intros m Hm. rewrite (Hold m Hm), andb_false_r. simpl. tauto. }
  simpl. rewrite !filter_all; [by destruct db|..];
    intros x Hin Heq%list_elem_of_singleton; apply Hfresh; rewrite <-Heq;
    auto.
Qed.

Lemma insert_then_delete_memory_example :
  ∃ db' row,
    insert_memory (Env 20 9 false) (Some bob)
      (MemoryValues None (Some bob) (Some "scratch"%string) None None None)
      example_db_after = Ok (db', row)
    ∧ delete_memories (Some bob) (memory_id_is (m_id row)) db'
      = (example_db_after, [row]).
Proof.
  eexists _, _. split; [vm_compute; reflexivity|].
  apply (insert_then_delete_memory (Env 20 9 false) (Some bob)
    (MemoryValues None (Some bob) (Some "scratch"%string) None None None)).
  - split; apply Forall_forall, (bool_decide_unpack _); by vm_compute.
  - vm_compute; reflexivity.
Defined.

Lemma delete_records_no_target caller w db :
  (∀ r, r ∈ memory_records db →
     ¬ (records_select_by_owner caller db r
        && records_delete_by_owner caller db r && w r)) →
  delete_records caller w db = (db, []).
Proof.
  intros Hno. unfold delete_records.
  rewrite (filter_all _ (memory_records db)), filter_none;
    [by destruct db|done..].
Qed.

Lemma delete_chat_messages_no_target caller w db :
  (∀ c, c ∈ chat_messages db →
     ¬ (chat_select_by_owner caller db c
        && chat_delete_by_owner caller db c && w c)) →
  delete_chat_messages caller w db = (db, []).
Proof.
  intros Hno. unfold delete_chat_messages.
  rewrite (filter_all _ (chat_messages db)), filter_none;
    [by destruct db|done..].
Qed.

(** X17. A DELETE is idempotent on each of the three tables: repeated on
    the database it left, it finds no row and changes nothing. *)
Theorem delete_twice caller db :
  (∀ w, delete_memories caller w (delete_memories caller w db).1
        = ((delete_memories caller w db).1, []))
  ∧ (∀ w, delete_records caller w (delete_records caller w db).1
          = ((delete_records caller w db).1, []))
  ∧ (∀ w, delete_chat_messages caller w (delete_chat_messages caller w db).1
          = ((delete_chat_messages caller w db).1, [])).
Proof.
  split_and!; intros w.
  - apply delete_memories_none. simpl.
    intros m [Hn _]%list_elem_of_filter Hs. apply not_true_is_false.
    intros Hw. apply Hn. unfold memories_delete_own, memories_select_own in *.
    by rewrite Hs, Hw.
  - apply delete_records_no_target. simpl.
    intros r [Hn _]%list_elem_of_filter. exact Hn.
  - apply delete_chat_messages_no_target. simpl.
    intros c [Hn _]%list_elem_of_filter. exact Hn.
Qed.

(** ** What the owner is never refused *)

(** A row of an UPDATE that leaves [id] and [user_id] as they are. *)
Lemma update_memory_row_kept e caller m v :
  caller = Some (m_user_id m) →
  mv_id v = Some (m_id m) → mv_user_id v = Some (m_user_id m) →
  update_memory_row e caller v
  = match mv_title v, mv_created_at v with
    | Some title, Some created_at =>
        Ok (Memory (m_id m) (m_user_id m) title (mv_description v) created_at
              (now e))
    | _, _ => Error not_null_violation
    end.
Proof.
  intros Hc%auth_uid_is_true Hid Hu.
  unfold update_memory_row, memories_update_own_check. simpl.
  rewrite Hid, Hu. simpl. rewrite Hc. simpl.
  by destruct (mv_title v), (mv_created_at v).
Qed.

(** X18. On a database with unique keys and existing users, an UPDATE of
    memories that leaves [id] and [user_id] as they are is refused for a
    NULL only.  It is accepted, whoever issues it and whatever rows it
    names, when it gives a title and a [created_at] to every row it reaches;
    it then keeps the ids of the table, and the rows it wrote carry the
    server time.  It fails with not_null_violation when it gives a row it
    reaches no title or no [created_at].  A NULL for [updated_at] does not
    count: the trigger has overwritten it before the constraints are looked
    at. *)
Theorem update_of_other_columns_accepted e caller w set db :
  keys_unique db → users_exist db →
  (∀ m, mv_id (set m) = Some (m_id m)
        ∧ mv_user_id (set m) = Some (m_user_id m)) →
  ((∀ m, m ∈ memories db → caller = Some (m_user_id m) → w m = true →
      is_Some (mv_title (set m)) ∧ is_Some (mv_created_at (set m))) →
   ∃ db' rows,
     update_memories_values e caller w set db = Ok (db', rows)
     ∧ m_id <$> memories db' = m_id <$> memories db
     ∧ rows ⊆ memories db'
     ∧ ∀ new, new ∈ rows → m_updated_at new = now e)
  ∧ ((∃ m, m ∈ memories db ∧ caller = Some (m_user_id m) ∧ w m = true
        ∧ (mv_title (set m) = None ∨ mv_created_at (set m) = None)) →
     update_memories_values e caller w set db = Error not_null_violation).
Proof.
  intros (_ & Hk & _) (Hu & _) Hset.
  assert (Htarget : ∀ m,
            memories_select_own caller m && memories_update_own caller m
            && w m = true ↔ caller = Some (m_user_id m) ∧ w m = true).
  { intros m. unfold memories_select_own, memories_update_own.
    rewrite !andb_true_iff, auth_uid_is_true. tauto. }
  assert (Hrow : ∀ m,
            memories_select_own caller m && memories_update_own caller m
            && w m = true →
            update_memory_row e caller (set m)
            = match mv_title (set m), mv_created_at (set m) with
              | Some title, Some created_at =>
                  Ok (Memory (m_id m) (m_user_id m) title
                        (mv_description (set m)) created_at (now e))
              | _, _ => Error not_null_violation
              end).
  { intros m [Hc _]%Htarget.
    apply update_memory_row_kept; [done|apply Hset..]. }
  split.
  - intros Hgiven.
    destruct (update_rows_keys_kept m_id
                (λ m, memories_select_own caller m
                      && memories_update_own caller m && w m)
                (λ old, update_memory_row e caller (set old))
                [] (memories db)) as (table & rows & Hrows); [done| |].
    { intros m Hm Ht. rewrite (Hrow m Ht).
      apply Htarget in Ht as [Hc Hw].
      destruct (Hgiven m Hm Hc Hw) as [[title ->] [created_at ->]].
      by eexists. }
    pose proof (update_rows_Ok _ _ _ _ _ _ _ Hrows) as (Htable & Hnew & Hw & _).
    simpl in Htable.
    assert (Hkept : ∀ m, m ∈ memories db →
              memories_select_own caller m && memories_update_own caller m
              && w m = true →
              m_id (written (λ old, update_memory_row e caller (set old)) m)
              = m_id m
              ∧ m_user_id
                  (written (λ old, update_memory_row e caller (set old)) m)
                = m_user_id m
              ∧ m_updated_at
                  (written (λ old, update_memory_row e caller (set old)) m)
                = now e).
    { intros m Hm Ht. pose proof (Hw m Hm Ht) as Hwm.
      rewrite (Hrow m Ht) in Hwm.
      destruct (mv_title (set m)), (mv_created_at (set m)); try done.
      injection Hwm as <-. done. }
    assert (Hids : m_id <$> table = m_id <$> memories db).
    { rewrite Htable, <-list_fmap_compose. apply list_fmap_ext.
      intros i m Hm%list_elem_of_lookup_2. simpl.
      destruct (memories_select_own caller m && memories_update_own caller m
                && w m) eqn:Ht; [|done].
      by apply Hkept. }
    unfold update_memories_values. rewrite Hrows. simpl.
    assert (H1 : forallb (λ new, bool_decide (m_user_id new ∈ auth_users db))
                   rows = true).
    { apply forallb_forall. intros new Hin%list_elem_of_In.
      rewrite Hnew in Hin.
      apply list_elem_of_fmap in Hin
        as (m & -> & [Ht Hm]%list_elem_of_filter).
      apply bool_decide_eq_true.
      destruct (Hkept m Hm (Is_true_true_1 _ Ht)) as (_ & -> & _).
      by apply Hu. }
    assert (H2 : forallb (λ m, bool_decide (m_id m ∈ m_id <$> table)
                               || negb (memory_referenced db (m_id m)))
                   (filter (λ m, memories_select_own caller m
                      && memories_update_own caller m && w m) (memories db))
                 = true).
    { apply forallb_forall. intros m [_ Hm]%list_elem_of_In%list_elem_of_filter.
      rewrite Hids, bool_decide_eq_true_2; [done|].
      by apply list_elem_of_fmap_2. }
    rewrite H1, H2. simpl. eexists _, _. split; [done|]. simpl.
    split; [done|]. split.
    + intros new Hin. rewrite Hnew in Hin. rewrite Htable.
      apply list_elem_of_fmap in Hin
        as (m & -> & [Ht Hm]%list_elem_of_filter).
      apply list_elem_of_fmap. exists m. split; [|done].
      by rewrite (Is_true_true_1 _ Ht).
    + intros new Hin. rewrite Hnew in Hin.
      apply list_elem_of_fmap in Hin
        as (m & -> & [Ht Hm]%list_elem_of_filter).
      by apply Hkept; [|apply Is_true_true].
  - intros (m & Hm & Hc & Hwm & Hnull).
    unfold update_memories_values.
    rewrite (update_rows_refused m_id _ _ not_null_violation); [done..| |].
    + intros x Hx Ht. rewrite (Hrow x Ht).
      destruct (mv_title (set x)), (mv_created_at (set x)); eauto.
    + exists m. split; [done|].
      assert (Ht : memories_select_own caller m
                   && memories_update_own caller m && w m = true)
        by (by apply Htarget).
      split; [done|]. rewrite (Hrow m Ht).
      destruct Hnull as [-> | ->]; [done|].
      by destruct (mv_title (set m)).
Qed.

Lemma update_of_other_columns_accepted_example :
  (∃ db' rows,
     update_memories_values (Env 30 0 false) (Some alice) (λ _, true)
       (λ m, MemoryValues (Some (m_id m)) (Some (m_user_id m))
               (Some "renamed"%string) None (Some 5%Z) None)
       example_db_after = Ok (db', rows)
     ∧ memories db' = [Memory notes alice "renamed" None 5 30])
  ∧ update_memories_values (Env 30 0 false) (Some alice) (λ _, true)
      (λ m, MemoryValues (Some (m_id m)) (Some (m_user_id m)) None None
              (Some 5%Z) (Some 6%Z))
      example_db_after = Error not_null_violation.
Proof.
  assert (keys_unique example_db_after) as Hk
    by (split_and!; apply (bool_decide_unpack _); by vm_compute).
  assert (users_exist example_db_after) as Hu
    by (split_and!; apply Forall_forall, (bool_decide_unpack _);
        by vm_compute).
  split.
  - destruct (update_of_other_columns_accepted (Env 30 0 false) (Some alice)
                (λ _, true)
                (λ m, MemoryValues (Some (m_id m)) (Some (m_user_id m))
                        (Some "renamed"%string) None (Some 5%Z) None)
                example_db_after Hk Hu) as [Hok _]; [done|].
    destruct Hok as (db' & rows & Hupd & _); [by split; eexists|].
    exists db', rows. split; [exact Hupd|].
    vm_compute in Hupd. injection Hupd as <- _. reflexivity.
  - destruct (update_of_other_columns_accepted (Env 30 0 false) (Some alice)
                (λ _, true)
                (λ m, MemoryValues (Some (m_id m)) (Some (m_user_id m)) None
                        None (Some 5%Z) (Some 6%Z))
                example_db_after Hk Hu) as [_ Hno]; [done|].
    apply Hno. exists (Memory notes alice "notes" None 0 0).
    split_and!; [apply (bool_decide_unpack _); by vm_compute|done..|by left].
Defined.



Example insert_chat_message_refused :
  insert_chat_message (Env 16 116 false) (Some alice)
    (ChatMessageValues None (Some alice) (Some notes)
       (Some "user"%string) (Some "hello"%string) None) example_db_after
  = Error ambiguous_column
  ∧ insert_chat_message (Env 16 116 false) (Some alice)
      (ChatMessageValues None (Some alice) (Some 8%N)
         (Some "user"%string) (Some "nowhere"%string) None) example_db_after
    = Error insufficient_privilege
  ∧ insert_chat_message (Env 16 116 false) (Some alice)
      (ChatMessageValues (Some 101%N) (Some alice) (Some notes)
         (Some "user"%string) (Some "again"%string) None) chatty_db
    = Error unique_violation.
Proof. by vm_compute. Qed.

(** ** What a caller writes *)

Lemma filter_update_other {A} (P : A → Prop) `{!∀ x, Decision (P x)}
    (t : A → bool) (f : A → A) (l : list A) :
  (∀ x, x ∈ l → t x = true → ¬ P x ∧ ¬ P (f x)) →
  filter P ((λ x, if t x then f x else x) <$> l) = filter P l.
Proof.
  induction l as [|x l IH]; intros Hl; [done|].
  rewrite fmap_cons, !filter_cons, IH by (intros; apply Hl; [by right|done]).
  destruct (t x) eqn:Ht; [|done].
  destruct (Hl x) as [? ?]; [by left|done|].
  by rewrite !decide_False.
Qed.

Lemma filter_filter_other {A} (P Q : A → Prop)
    `{!∀ x, Decision (P x), !∀ x, Decision (Q x)} (l : list A) :
  (∀ x, x ∈ l → P x → Q x) → filter P (filter Q l) = filter P l.
Proof.
  intros Hl. rewrite list_filter_filter. apply filter_agree.
  intros x Hx. specialize (Hl x Hx). tauto.
Qed.

Lemma filter_snoc_other {A} (P : A → Prop) `{!∀ x, Decision (P x)}
    (l : list A) (x : A) :
  ¬ P x → filter P (l ++ [x]) = filter P l.
Proof.
  intros Hx. rewrite filter_app, (filter_none _ [x]), app_nil_r; [done|].
  by intros ? ->%list_elem_of_singleton.
Qed.

Lemma auth_uid_is_other c d u :
  d ≠ c → auth_uid_is (Some c) u = true → ¬ auth_uid_is (Some d) u.
Proof.
  intros Hne [= ->]%auth_uid_is_true [= ->]%auth_uid_is_True. done.
Qed.

Lemma by_owner_other c d db u id :
  d ≠ c → by_owner (Some c) db u id = true → ¬ auth_uid_is (Some d) u.
Proof.
  intros Hne [Hu _]%andb_true_iff. by eapply auth_uid_is_other.
Qed.

(** X20. On a database where the ownership chain holds, no statement of a
    caller on the three tables touches a row that carries another user's
    id: the rows of that user are the same before and after, whether the
    statement is accepted or refused. *)
Theorem statements_keep_other_users_rows e c d s db :
  ownership_chain db →
  d ≠ c →
  match s with
  | InsertUser _ | DeleteUser _ => True
  | _ => owned_by (Some d) (commit e (Some c) s db) = owned_by (Some d) db
  end.
Proof.
  intros [Hcr Hcc] Hne. unfold commit.
  destruct s; try done;
    destruct (execute e (Some c) _ db) as [db'|err] eqn:Hexec; try done;
    simpl in Hexec; unfold owned_by.
  - apply fmap_Ok in Hexec as ([x row] & H & ->).
    apply insert_memory_Ok in H as (-> & _ & _ & Hc%auth_uid_is_true & _).
    simpl. f_equal. apply filter_snoc_other. by eapply auth_uid_is_other.
  - apply fmap_Ok in Hexec as ([x rows] & H & ->).
    apply update_memories_values_Ok in H as (-> & _ & _ & Hnew).
    simpl. f_equal. apply filter_update_other. intros m Hm Ht.
    destruct (Hnew m Hm) as (_ & Hown%Is_true_true & _);
      [by apply Is_true_true|].
    apply andb_true_iff in Ht as [[Hs _]%andb_true_iff _].
    split; by eapply auth_uid_is_other.
  - injection Hexec as <-. simpl. f_equal.
    + apply filter_filter_other. intros m _ Hd Ht.
      apply andb_True in Ht as [[Hs%Is_true_true _]%andb_True _].
      by eapply auth_uid_is_other.
    + apply filter_filter_other.
      intros r Hr Hd (m & Hid & [Ht Hm]%list_elem_of_filter)%list_elem_of_fmap.
      apply andb_True in Ht as [[Hs%Is_true_true _]%andb_True _].
      eapply auth_uid_is_other; [done|exact Hs|].
      by rewrite (Hcr r m).
    + apply filter_filter_other.
      intros a Ha Hd (m & Hid & [Ht Hm]%list_elem_of_filter)%list_elem_of_fmap.
      apply andb_True in Ht as [[Hs%Is_true_true _]%andb_True _].
      eapply auth_uid_is_other; [done|exact Hs|].
      by rewrite (Hcc a m).
  - apply fmap_Ok in Hexec as ([x row] & H & ->).
    apply insert_record_Ok in H as (-> & _ & _ & _ & Ho & _).
    simpl. f_equal. apply filter_snoc_other. by eapply by_owner_other.
  - apply fmap_Ok in Hexec as ([x rows] & H & ->).
    apply update_records_values_Ok in H as (-> & _ & _ & Hnew).
    simpl. f_equal. apply filter_update_other. intros r Hr Ht.
    destruct (Hnew r Hr) as (_ & Hown%Is_true_true & _);
      [by apply Is_true_true|].
    apply andb_true_iff in Ht as [[Hs _]%andb_true_iff _].
    split; by eapply by_owner_other.
  - injection Hexec as <-. simpl. f_equal.
    apply filter_filter_other. intros r _ Hd Ht.
    apply andb_True in Ht as [[Hs%Is_true_true _]%andb_True _].
    by eapply by_owner_other.
  - apply fmap_Ok in Hexec as ([x row] & H & ->).
    by apply insert_chat_message_not_Ok in H.
  - apply fmap_Ok in Hexec as ([x rows] & H & ->).
    apply update_chat_messages_values_Ok in H as (-> & _ & _ & Hnew).
    simpl. f_equal. apply filter_update_other. intros a Ha Ht.
    destruct (Hnew a Ha) as (_ & Hown%Is_true_true & _);
      [by apply Is_true_true|].
    apply andb_true_iff in Ht as [[Hs _]%andb_true_iff _].
    split; by eapply by_owner_other.
  - injection Hexec as <-. simpl. f_equal.
    apply filter_filter_other. intros a _ Hd Ht.
    apply andb_True in Ht as [[Hs%Is_true_true _]%andb_True _].
    by eapply by_owner_other.
Qed.

Lemma example_db_after_chain : ownership_chain example_db_after.
Proof.
  assert (memories example_db_after = [Memory notes alice "notes" None 0 0])
    as Hmem by (vm_compute; reflexivity).
  assert (memory_records example_db_after
          = [MemoryRecord 20 notes alice "mine" empty_object 1])
    as Hrec by (vm_compute; reflexivity).
  assert (chat_messages example_db_after = [])
    as Hchat by (vm_compute; reflexivity).
  split.
  - intros r m Hr Hm _. rewrite Hrec in Hr. rewrite Hmem in Hm.
    apply list_elem_of_singleton in Hr as ->.
    apply list_elem_of_singleton in Hm as ->. reflexivity.
  - intros a m Ha. exfalso. rewrite Hchat in Ha.
    apply elem_of_nil in Ha. exact Ha.
Qed.

Lemma statements_keep_other_users_rows_example :
  owned_by (Some alice)
    (commit (Env 20 0 false) (Some bob) (DeleteChatMessages (λ _, true))
       example_db_after)
  = owned_by (Some alice) example_db_after
  ∧ owned_by (Some alice)
      (commit (Env 20 0 false) (Some bob)
         (UpdateMemories (λ _, true)
            (λ m, memory_columns (set_title "taken" m))) example_db_after)
    = owned_by (Some alice) example_db_after.
Proof.
  assert (alice ≠ bob) as Hne by discriminate.
  split.
  - exact (statements_keep_other_users_rows (Env 20 0 false) bob alice
             (DeleteChatMessages (λ _, true)) example_db_after
             example_db_after_chain Hne).
  - exact (statements_keep_other_users_rows (Env 20 0 false) bob alice
             (UpdateMemories (λ _, true)
                (λ m, memory_columns (set_title "taken" m)))
             example_db_after example_db_after_chain Hne).
Defined.

(** ** The roles of the stored messages *)




(** ** Moving messages between memories *)





(** ** Giving a memory another id *)

Lemma filter_unique {A} (t : A → bool) (M : A) (l : list A) :
  NoDup l → M ∈ l → (∀ m, m ∈ l → t m = true ↔ m = M) →
  filter (λ m, t m) l = [M].
Proof.
  induction l as [|x l IH]; intros Hl HM Ht; [by apply elem_of_nil in HM|].
  apply NoDup_cons in Hl as [Hx Hl].
  destruct (Ht x) as [Ht1 Ht2]; [by left|].
  apply elem_of_cons in HM as [->|HM].
  - rewrite filter_cons_True by (by rewrite Ht2). f_equal.
    apply filter_none. intros m Hm Htm. apply Hx.
    by rewrite <-(proj1 (Ht m (list_elem_of_further _ _ _ Hm))
                    (Is_true_true_1 _ Htm)).
  - rewrite filter_cons_False.
    + apply IH; [done..|]. intros m Hm. apply Ht. by right.
    + intros Htx%Is_true_true%Ht1. by subst.
Qed.

(** An UPDATE that reaches one row and gives it a key not in use. *)
Lemma update_rows_rekey {A} (key : A → uuid) (t : A → bool)
    (write : A → result A) (f : A → A) (M : A) (l : list A) :
  ∀ acc,
    NoDup (key <$> l) →
    (∀ m, m ∈ l → t m = true ↔ m = M) →
    write M = Ok (f M) →
    key (f M) ∉ key <$> acc ++ l →
    update_rows key t write acc l
    = Ok (acc ++ ((λ m, if t m then f m else m) <$> l),
          f <$> filter (λ m, t m) l).
Proof.
  induction l as [|x l IH]; intros acc Hl Ht Hw Hfresh; simpl.
  - by rewrite app_nil_r.
  - rewrite fmap_cons in Hl. apply NoDup_cons in Hl as [Hx Hl].
    assert (Htail : ∀ m, m ∈ l → t m = true ↔ m = M)
      by (intros m Hm; apply Ht; by right).
    destruct (t x) eqn:Htx.
    + assert (x = M) as -> by (apply Ht; [by left|done]).
      assert (Hno : ∀ m, m ∈ l → t m = false).
      { intros m Hm. apply not_true_is_false. intros ->%(Htail m Hm).
        apply Hx. by apply list_elem_of_fmap_2. }
      rewrite Hw. simpl.
      rewrite bool_decide_eq_true_2.
      * simpl. rewrite update_rows_no_target by done. simpl.
        rewrite fmap_unless by done.
        rewrite filter_cons_True by (by rewrite Htx).
        rewrite (filter_none (λ m, t m) l)
          by (intros m Hm; rewrite (Hno m Hm); simpl; tauto).
        by rewrite <-app_assoc.
      * rewrite fmap_app in Hfresh |- *. rewrite fmap_cons in Hfresh.
        rewrite elem_of_app in Hfresh |- *. rewrite elem_of_cons in Hfresh.
        tauto.
    + rewrite IH; [| done | done | done |].
      * rewrite filter_cons_False by (rewrite Htx; simpl; tauto).
        by rewrite <-app_assoc.
      * by rewrite <-app_assoc.
Qed.

(** X23. The references to [memories(id)] declare no action on update: on
    a database with unique keys and existing users, the owner's UPDATE that
    gives a memory an unused id is refused as a foreign key violation when a
    record or a chat message refers to the memory, and accepted when none
    does. *)
Theorem memory_id_change e u M id db :
  keys_unique db → users_exist db →
  M ∈ memories db → m_user_id M = u →
  id ∉ m_id <$> memories db →
  update_memories e (Some u) (memory_id_is (m_id M)) (set_memory_id id) db
  = if memory_referenced db (m_id M)
    then Error foreign_key_violation
    else Ok (with_memories db
               ((λ m, if memory_id_is (m_id M) m
                      then set_updated_at e (set_memory_id id m) else m)
                  <$> memories db),
             [set_updated_at e (set_memory_id id M)]).
Proof.
  intros (_ & Hk & _) (Hu & _) HM Hown Hfresh.
  set (target := λ m, memories_select_own (Some u) m
                      && memories_update_own (Some u) m
                      && memory_id_is (m_id M) m).
  set (new := λ m, set_updated_at e (set_memory_id id m)).
  assert (Hw : ∀ m, m ∈ memories db →
            memory_id_is (m_id M) m = true ↔ m = M).
  { intros m Hm. unfold memory_id_is. rewrite bool_decide_eq_true.
    split; [|by intros ->]. intros Hid. eauto using key_inj. }
  assert (Ht : ∀ m, m ∈ memories db → target m = true ↔ m = M).
  { intros m Hm. rewrite <-(Hw m Hm). unfold target. split.
    - by intros [_ ?]%andb_true_iff.
    - intros Hid. rewrite Hid, andb_true_r.
      apply Hw in Hid as ->; [|done].
      unfold memories_select_own, memories_update_own.
      by rewrite (proj2 (auth_uid_is_true (Some u) (m_user_id M)))
        by congruence. }
  assert (Htargets : filter (λ m, target m) (memories db) = [M]).
  { apply filter_unique; [by eapply NoDup_fmap_1|done..]. }
  assert (Htable : (λ m, if target m then new m else m) <$> memories db
                   = (λ m, if memory_id_is (m_id M) m
                           then set_updated_at e (set_memory_id id m) else m)
                       <$> memories db).
  { apply list_fmap_ext. intros i m Hm%list_elem_of_lookup_2.
    destruct (Ht m Hm) as [Ht1 Ht2], (Hw m Hm) as [Hw1 Hw2].
    destruct (target m), (memory_id_is (m_id M) m); try done.
    - by specialize (Hw2 (Ht1 eq_refl)).
    - by specialize (Ht2 (Hw1 eq_refl)). }
  assert (Hgone : m_id M ∉ m_id <$> ((λ m, if target m then new m else m)
                                       <$> memories db)).
  { intros (m' & Hid & (m & -> & Hm)%list_elem_of_fmap)%list_elem_of_fmap.
    destruct (Ht m Hm) as [Ht1 Ht2]. destruct (target m) eqn:Htm.
    - simpl in Hid. apply Hfresh. rewrite <-Hid. by apply list_elem_of_fmap_2.
    - assert (m = M) as Hm' by eauto using key_inj.
      by specialize (Ht2 Hm'). }
  assert (Hupd : update_memories e (Some u) (memory_id_is (m_id M))
                   (set_memory_id id) db
                 = (require (negb (memory_referenced db (m_id M)))
                      foreign_key_violation ;;
                    Ok (with_memories db
                          ((λ m, if target m then new m else m)
                             <$> memories db), [new M]))).
  { unfold update_memories, update_memories_values. fold target.
    rewrite (update_rows_rekey m_id target _ new M); [|done..| |done].
    - rewrite Htargets.
      assert (bool_decide (m_user_id (new M) ∈ auth_users db) = true) as Hc2.
      { apply bool_decide_eq_true. simpl. by apply Hu. }
      cbn [forallb fmap list_fmap app mbind result_bind].
      change (filter _ (memories db))
        with (filter (λ m, target m) (memories db)).
      rewrite Htargets. cbn [forallb].
      rewrite Hc2.
      rewrite (bool_decide_eq_false_2 (m_id M ∈ _)) by done.
      cbn [andb orb require mbind result_bind]. by rewrite andb_true_r.
    - rewrite update_memory_row_columns.
      assert (memories_update_own (Some u) (set_memory_id id M) = true) as ->;
        [|done].
      unfold memories_update_own. simpl. apply bool_decide_eq_true.
      congruence. }
  rewrite Hupd. destruct (memory_referenced db (m_id M)); simpl; [done|].
  by rewrite Htable.
Qed.

Lemma memory_id_change_example :
  update_memories (Env 20 0 false) (Some alice) (memory_id_is notes)
    (set_memory_id 9) example_db_after = Error foreign_key_violation
  ∧ ∃ db' rows,
      update_memories (Env 20 0 false) (Some alice) (memory_id_is notes)
        (set_memory_id 9) example_db = Ok (db', rows).
Proof.
  split.
  - pose proof (memory_id_change (Env 20 0 false) alice
                  (Memory notes alice "notes" None 0 0) 9 example_db_after)
      as H.
    cbn [m_id] in H. rewrite H.
    + vm_compute; reflexivity.
    + split_and!; apply (bool_decide_unpack _); by vm_compute.
    + split_and!; apply Forall_forall, (bool_decide_unpack _); by vm_compute.
    + apply (bool_decide_unpack _). by vm_compute.
    + reflexivity.
    + apply (bool_decide_unpack _). by vm_compute.
  - pose proof (memory_id_change (Env 20 0 false) alice
                  (Memory notes alice "notes" None 0 0) 9 example_db) as H.
    cbn [m_id] in H. rewrite H.
    + eexists _, _. vm_compute; reflexivity.
    + split_and!; apply (bool_decide_unpack _); by vm_compute.
    + split_and!; apply Forall_forall, (bool_decide_unpack _); by vm_compute.
    + apply (bool_decide_unpack _). by vm_compute.
    + reflexivity.
    + apply (bool_decide_unpack _). by vm_compute.
Defined.

(** ** Keys are checked row by row *)

(** The rows of a list up to the first one an UPDATE reaches. *)
Lemma first_target {A} (t : A → bool) (l : list A) (x : A) :
  x ∈ l → t x = true →
  ∃ l1 y l2, l = l1 ++ y :: l2 ∧ (∀ m, m ∈ l1 → t m = false) ∧ t y = true.
Proof.
  induction l as [|a l IH]; intros Hx Ht; [by apply elem_of_nil in Hx|].
  destruct (t a) eqn:Hta.
  - exists [], a, l. split_and!; [done| |done]. by intros m ?%elem_of_nil.
  - apply elem_of_cons in Hx as [->|Hx]; [congruence|].
    destruct (IH Hx Ht) as (l1 & y & l2 & -> & Hl1 & Hy).
    exists (a :: l1), y, l2. split_and!; [done| |done].
    intros m [->|Hm]%elem_of_cons; auto.
Qed.

(** The first row an UPDATE writes fails when it takes the key of another
    row of the table, whatever the statement would do with that row. *)
Lemma update_rows_collision {A} (key : A → uuid) (t : A → bool)
    (write : A → result A) (l1 : list A) (x y : A) (l2 : list A) :
  ∀ acc,
    (∀ m, m ∈ l1 → t m = false) → t x = true → write x = Ok y →
    key y ∈ key <$> acc ++ l1 ++ l2 →
    update_rows key t write acc (l1 ++ x :: l2) = Error unique_violation.
Proof.
  induction l1 as [|a l1 IH]; intros acc Hl1 Hx Hw Hin; simpl.
  - rewrite Hx, Hw. simpl. by rewrite bool_decide_eq_false_2 by tauto.
  - rewrite (Hl1 a) by (by left). apply IH; [|done..|].
    + intros m Hm. apply Hl1. by right.
    + by rewrite <-app_assoc.
Qed.

(** X25. The primary key is checked as each row is written, not on the
    table the statement would leave: on a table with unique ids, the
    owner's UPDATE that swaps the ids of two of her memories fails with
    unique_violation, though the table it would leave has unique ids. *)
Theorem id_swap_refused e u A B db :
  NoDup (m_id <$> memories db) →
  A ∈ memories db → B ∈ memories db → m_id A ≠ m_id B →
  m_user_id A = u → m_user_id B = u →
  update_memories e (Some u) (memory_id_in (m_id A) (m_id B))
    (swap_memory_ids (m_id A) (m_id B)) db
  = Error unique_violation
  ∧ NoDup (m_id <$> ((λ m, if memory_id_in (m_id A) (m_id B) m
                           then swap_memory_ids (m_id A) (m_id B) m else m)
                       <$> memories db)).
Proof.
  intros Hk HA HB Hne HuA HuB. split.
  - set (t := λ m, memories_select_own (Some u) m
                   && memories_update_own (Some u) m
                   && memory_id_in (m_id A) (m_id B) m).
    assert (Ht : ∀ m, m ∈ memories db → t m = true ↔ m = A ∨ m = B).
    { intros m Hm. unfold t, memory_id_in, memories_select_own,
        memories_update_own.
      rewrite !andb_true_iff, orb_true_iff, !bool_decide_eq_true,
        auth_uid_is_true.
      split.
      - intros [_ [Hid|Hid]]; [left|right]; eauto using key_inj.
      - intros [-> | ->]; split_and!; auto; congruence. }
    destruct (first_target t (memories db) A) as (l1 & x & l2 & Hl & Hl1 & Hx);
      [done|apply Ht; auto|].
    assert (Hxin : x ∈ memories db)
      by (rewrite Hl; apply elem_of_app; right; by left).
    assert (Hother : ∀ y, y ∈ memories db → t y = true → m_id y ≠ m_id x →
              m_id y ∈ m_id <$> l1 ++ l2).
    { intros y Hy Hty Hyx. rewrite Hl in Hy.
      apply list_elem_of_fmap_2.
      apply elem_of_app in Hy as [Hy|[->|Hy]%elem_of_cons].
      - rewrite (Hl1 y Hy) in Hty. discriminate.
      - done.
      - apply elem_of_app. by right. }
    unfold update_memories, update_memories_values. fold t. rewrite Hl.
    rewrite (update_rows_collision m_id t _ l1 x
               (set_updated_at e (swap_memory_ids (m_id A) (m_id B) x)) l2);
      [done..| |].
    + rewrite update_memory_row_columns.
      assert (memories_update_own (Some u)
                (swap_memory_ids (m_id A) (m_id B) x) = true) as ->; [|done].
      unfold memories_update_own. simpl. apply bool_decide_eq_true.
      destruct (proj1 (Ht x Hxin) Hx) as [-> | ->]; congruence.
    + simpl. destruct (proj1 (Ht x Hxin) Hx) as [-> | ->].
      * rewrite bool_decide_eq_true_2 by done.
        apply (Hother B); [done|apply Ht; auto|congruence].
      * rewrite bool_decide_eq_false_2 by congruence.
        apply (Hother A); [done|apply Ht; auto|congruence].
  - rewrite <-list_fmap_compose.
    apply (NoDup_fmap_2_strong _); [|by eapply NoDup_fmap_1].
    intros x y Hx Hy Heq. apply (key_inj m_id (memories db)); [done..|].
    revert Heq. unfold memory_id_in, swap_memory_ids. simpl.
    destruct (decide (m_id x = m_id A)) as [Hxa|Hxa],
             (decide (m_id x = m_id B)) as [Hxb|Hxb],
             (decide (m_id y = m_id A)) as [Hya|Hya],
             (decide (m_id y = m_id B)) as [Hyb|Hyb];
      rewrite ?(bool_decide_eq_true_2 _ Hxa), ?(bool_decide_eq_false_2 _ Hxa),
        ?(bool_decide_eq_true_2 _ Hxb), ?(bool_decide_eq_false_2 _ Hxb),
        ?(bool_decide_eq_true_2 _ Hya), ?(bool_decide_eq_false_2 _ Hya),
        ?(bool_decide_eq_true_2 _ Hyb), ?(bool_decide_eq_false_2 _ Hyb);
      simpl; congruence.
Qed.

Lemma id_swap_refused_example :
  update_memories (Env 20 0 false) (Some alice) (memory_id_in notes 8)
    (swap_memory_ids notes 8) two_memories_db
  = Error unique_violation.
Proof.
  apply (id_swap_refused (Env 20 0 false) alice
           (Memory notes alice "notes" None 0 0)
           (Memory 8 alice "plans" None 0 0) two_memories_db).
  - apply (bool_decide_unpack _). by vm_compute.
  - apply (bool_decide_unpack _). by vm_compute.
  - apply (bool_decide_unpack _). by vm_compute.
  - discriminate.
  - reflexivity.
  - reflexivity.
Defined.

(** * The web client *)

Lemma trim_start_nil (s : list N) :
  Chat.trim_start s = [] ↔ forallb Chat.is_white_space s = true.
Proof.
  induction s as [|c s IH]; simpl; [tauto|].
  destruct (Chat.is_white_space c); simpl; [exact IH|].
  split; intros H; discriminate H.
Qed.

Lemma trim_start_head (s : list N) c t :
  Chat.trim_start s = c :: t → Chat.is_white_space c = false.
Proof.
  induction s as [|a s IH]; simpl; [intros H; discriminate H|].
  destruct (Chat.is_white_space a) eqn:Ha; [exact IH|].
  intros H. injection H as -> _. exact Ha.
Qed.

Lemma forallb_reverse {A} (f : A → bool) (l : list A) :
  forallb f (reverse l) = forallb f l.
Proof.
  induction l as [|a l IH]; [reflexivity|].
  rewrite reverse_cons, forallb_app, IH. simpl.
  rewrite andb_true_r. apply andb_comm.
Qed.

Lemma not_string_trim (s : list N) :
  Chat.not_string (Chat.trim s) = forallb Chat.is_white_space s.
Proof.
  unfold Chat.not_string, Chat.trim, Chat.trim_end.
  destruct (forallb Chat.is_white_space s) eqn:Hs.
  - apply trim_start_nil in Hs. rewrite Hs. reflexivity.
  - apply bool_decide_eq_false_2. intros H.
    apply (f_equal reverse) in H. rewrite reverse_involutive in H.
    change (reverse []) with (@nil N) in H.
    apply trim_start_nil in H. rewrite forallb_reverse in H.
    destruct (Chat.trim_start s) as [|c t] eqn:Ht.
    + apply trim_start_nil in Ht. congruence.
    + apply trim_start_head in Ht. simpl in H. rewrite Ht in H.
      discriminate H.
Qed.

Lemma forallb_false_exists {A} (f : A → bool) (l : list A) :
  forallb f l = false ↔ ∃ c, c ∈ l ∧ f c = false.
Proof.
  induction l as [|a l IH]; simpl.
  - split; [intros H; discriminate H|].
    intros (c & Hc & _). apply elem_of_nil in Hc. destruct Hc.
  - destruct (f a) eqn:Ha; simpl.
    + rewrite IH. split.
      * intros (c & Hc & Hf). exists c. split; [by right|exact Hf].
      * intros (c & Hc & Hf). apply elem_of_cons in Hc as [->|Hc];
          [congruence|]. exists c. tauto.
    + split; [|reflexivity]. intros _. exists a. split; [by left|exact Ha].
Qed.

(** X24.  The chat page sends a title, a record or a message to the server
    exactly when the typed text has a character that is not white space
    (and, for a record or a message, a memory is selected); what it sends
    is then the text as typed, untrimmed.  Blank input never leaves the
    page, whatever the server would have answered. *)
Theorem client_sends_nonblank_input {memory record message A : Type}
    (id : memory → list N)
    (apiM : Chat.request → Chat.outcome memory)
    (apiR : Chat.request → Chat.outcome record)
    (apiS : Chat.request → Chat.outcome A)
    (st : Chat.state (memory := memory) (record := record)
            (message := message)) :
  let nonblank s := ∃ c, c ∈ s ∧ Chat.is_white_space c = false in
  ((Chat.createMemory apiM st).2 ≠ [] ↔ nonblank (Chat.newMemoryTitle st)) ∧
  ((Chat.createRecord id apiR st).2 ≠ [] ↔
     is_Some (Chat.selectedMemory st) ∧ nonblank (Chat.newRecord st)) ∧
  ((Chat.sendMessage id apiS st).2 ≠ [] ↔
     is_Some (Chat.selectedMemory st) ∧ nonblank (Chat.newMessage st)) ∧
  (∀ req, req ∈ (Chat.createMemory apiM st).2 →
     Chat.body req = [(Chat.js "title", Chat.newMemoryTitle st)]) ∧
  (∀ req, req ∈ (Chat.createRecord id apiR st).2 →
     Chat.body req = [(Chat.js "content", Chat.newRecord st)]) ∧
  (∀ req, req ∈ (Chat.sendMessage id apiS st).2 →
     Chat.method req = Chat.js "POST" →
     ∃ mem, Chat.selectedMemory st = Some mem ∧
       Chat.body req = [(Chat.js "memory_id", id mem);
                        (Chat.js "message", Chat.newMessage st)]).
Proof.
  intros nonblank.
  assert (Hnb : ∀ s, Chat.not_string (Chat.trim s) = false ↔ nonblank s).
  { intros s. rewrite not_string_trim. apply forallb_false_exists. }
  assert (Hb : ∀ s, Chat.not_string (Chat.trim s) = true → ¬ nonblank s).
  { intros s H Hn. apply Hnb in Hn. congruence. }
  unfold Chat.createMemory, Chat.createRecord, Chat.sendMessage.
  split; [|split; [|split; [|split; [|split]]]].
  - destruct (Chat.not_string (Chat.trim (Chat.newMemoryTitle st))) eqn:Hn.
    + split; [intros H; by destruct H|].
      intros Hs. by apply Hb in Hn.
    + split; [intros _; by apply Hnb|].
      intros _. by destruct (apiM _).
  - destruct (Chat.selectedMemory st) as [mem|]; simpl.
    2: { split; [intros H; by destruct H|]. intros [[? [=]] _]. }
    destruct (Chat.not_string (Chat.trim (Chat.newRecord st))) eqn:Hn.
    + split; [intros H; by destruct H|].
      intros [_ Hs]. by apply Hb in Hn.
    + split; [intros _; split; [by eexists|by apply Hnb]|].
      intros _. by destruct (apiR _).
  - destruct (Chat.selectedMemory st) as [mem|]; simpl.
    2: { split; [intros H; by destruct H|]. intros [[? [=]] _]. }
    destruct (Chat.not_string (Chat.trim (Chat.newMessage st))) eqn:Hn.
    + split; [intros H; by destruct H|].
      intros [_ Hs]. by apply Hb in Hn.
    + split; [intros _; split; [by eexists|by apply Hnb]|].
      intros _. by destruct (apiS _).
  - intros req.
    destruct (Chat.not_string (Chat.trim (Chat.newMemoryTitle st)));
      [intros H; by apply elem_of_nil in H|].
    destruct (apiM _); simpl; intros ->%list_elem_of_singleton; reflexivity.
  - intros req. destruct (Chat.selectedMemory st) as [mem|]; simpl;
      [|intros H; by apply elem_of_nil in H].
    destruct (Chat.not_string (Chat.trim (Chat.newRecord st)));
      [intros H; by apply elem_of_nil in H|].
    destruct (apiR _); simpl; intros ->%list_elem_of_singleton; reflexivity.
  - intros req. destruct (Chat.selectedMemory st) as [mem|]; simpl;
      [|intros H; by apply elem_of_nil in H].
    destruct (Chat.not_string (Chat.trim (Chat.newMessage st)));
      [intros H; by apply elem_of_nil in H|].
    destruct (apiS _); simpl.
    + intros [->|[->|H]%elem_of_cons]%elem_of_cons Hm.
      * exists mem. split; reflexivity.
      * vm_compute in Hm. discriminate Hm.
      * by apply elem_of_nil in H.
    + intros ->%list_elem_of_singleton _. exists mem. split; reflexivity.
Qed.
